(** * scripts/dat-converter.py: the HRTF archive converter

    A shallow embedding of the conversion script and the statements that
    settle what its specification says about it.

    The script walks the directories [elev-40] ... [elev90], decodes every
    regular file as big-endian 16-bit PCM, keeps the window [40:168] of
    each left-channel file and of its right-channel counterpart, divides
    it by 32767 in float32 and finally writes all records to
    [hrtf_128.bin].

    Modelling choices:
    - Python integers are [Z]; list indices and lengths are [nat].
    - File names are [string]s of bytes.  The characters the script looks
      at ('L', 'R', 'e', 'a', newline, ASCII digits) are ASCII, so the
      byte view and the code-point view of a name agree on them.
    - An exception is a value of [exn]; code that may raise returns a
      [result].  Code that also touches the file system, prints or
      appends to [data_arrays] lives in the monad [M], which keeps the
      state reached when an exception escapes.
    - float32 is [spec_float] at precision 24 and [emax] 128, with the
      round-to-nearest-even operations of [SpecFloat].
    - [struct.pack("f", _)] and [ndarray.tobytes()] use the byte order of
      the machine; it is the parameter [byteorder] of the writer. *)

From Stdlib Require Import ZArith List String Ascii Bool Lia Arith.
From Stdlib Require Import QArith Qabs Lqa Sorted.
From Stdlib Require Import Strings.Byte DecimalString.
From Stdlib Require Import Floats.SpecFloat.
Import ListNotations.

Local Open Scope Z_scope.
Local Open Scope list_scope.

(** ** Exceptions and results *)

Inductive exn : Type :=
| FileNotFoundError
| NotADirectoryError
| IsADirectoryError
| IndexError
| ValueError
| StructError
| OverflowError.

Inductive result (A : Type) : Type :=
| Ok (a : A)
| Raise (e : exn).

Arguments Ok {A} a.
Arguments Raise {A} e.

Definition rbind {A B} (r : result A) (k : A -> result B) : result B :=
  match r with
  | Ok a => k a
  | Raise e => Raise e
  end.

(** ** Python built-ins the script calls *)

Module Py.

(** [l[a:b]] for [0 <= a <= b]: never raises, shortens silently. *)
Definition slice {A} (l : list A) (a b : nat) : list A :=
  firstn (b - a) (skipn a l).

(** [range_step2 j n] is [range(j, j + n, 2)]; the script calls it as
    [range(0, len(raw_data), 2)]. *)
Fixpoint range_step2 (j n : nat) : list nat :=
  match n with
  | O => []
  | S O => [j]
  | S (S n') => j :: range_step2 (S (S j)) n'
  end.

(** [range(start, stop, step)] on integers, for a positive [step]. *)
Definition range (start stop step : Z) : list Z :=
  map (fun k => start + step * Z.of_nat k)
      (seq 0 (Z.to_nat ((stop - start + step - 1) / step))).

(** [str(i)] for an integer. *)
Definition str (i : Z) : string := NilZero.string_of_int (Z.to_int i).

(** [s.startswith(c)] for a one-character prefix. *)
Definition startswith (s : string) (c : ascii) : bool :=
  match s with
  | String c0 _ => Ascii.eqb c0 c
  | EmptyString => false
  end.

(** [s.replace(old, new, 1)] for one-character [old] and [new]. *)
Fixpoint replace1 (s : string) (old new : ascii) : string :=
  match s with
  | EmptyString => EmptyString
  | String c r => if Ascii.eqb c old then String new r
                  else String c (replace1 r old new)
  end.

(** The regular expression [e(.*?)a].

    [lazy_until_a s] matches [(.*?)a] at the start of [s]: the group is
    extended one character at a time, [.] refusing a newline, until an
    'a' follows.  It returns the group. *)
Definition newline : ascii := Ascii.ascii_of_nat 10.

Fixpoint lazy_until_a (s : string) : option string :=
  match s with
  | EmptyString => None
  | String c r =>
      if Ascii.eqb c "a" then Some EmptyString
      else if Ascii.eqb c newline then None
      else option_map (String c) (lazy_until_a r)
  end.

(** [re.findall(r'e(.*?)a', s)]: the groups of the successive
    non-overlapping matches, leftmost first.  [skip] counts the
    characters still covered by the match found last. *)
Fixpoint findall_from (skip : nat) (s : string) : list string :=
  match s with
  | EmptyString => []
  | String c r =>
      match skip with
      | S k => findall_from k r
      | O =>
          if Ascii.eqb c "e" then
            match lazy_until_a r with
            | Some g => g :: findall_from (S (String.length g)) r
            | None => findall_from O r
            end
          else findall_from O r
      end
  end.

Definition findall (s : string) : list string := findall_from O s.

(** [l[0]] *)
Definition index0 {A} (l : list A) : result A :=
  match l with
  | x :: _ => Ok x
  | [] => Raise IndexError
  end.

(** [int(s)], base 10, on ASCII text: optional surrounding white space,
    an optional sign, then digits that single underscores may separate.
    A name with a digit or a blank outside ASCII is refused here. *)
Definition is_space (c : ascii) : bool :=
  let n := nat_of_ascii c in
  ((9 <=? n) && (n <=? 13) || (n =? 32) || (28 <=? n) && (n <=? 31))%nat.

Definition digit_of (c : ascii) : option Z :=
  let n := nat_of_ascii c in
  if ((48 <=? n) && (n <=? 57))%nat then Some (Z.of_nat n - 48) else None.

Fixpoint lstrip (s : string) : string :=
  match s with
  | String c r => if is_space c then lstrip r else s
  | EmptyString => EmptyString
  end.

Fixpoint all_space (s : string) : bool :=
  match s with
  | String c r => is_space c && all_space r
  | EmptyString => true
  end.

(** [digits acc after_digit s]: [acc] is the value read so far and
    [after_digit] tells whether the last character was a digit (an
    underscore or the end of the number is allowed only then). *)
Fixpoint digits (acc : Z) (after_digit : bool) (s : string) : result Z :=
  match s with
  | EmptyString => if after_digit then Ok acc else Raise ValueError
  | String c r =>
      match digit_of c with
      | Some d => digits (10 * acc + d) true r
      | None =>
          if Ascii.eqb c "_" then
            if after_digit then digits acc false r else Raise ValueError
          else if after_digit && all_space s then Ok acc
          else Raise ValueError
      end
  end.

Definition int (s : string) : result Z :=
  match lstrip s with
  | String "-" r => rbind (digits 0 false r) (fun n => Ok (- n))
  | String "+" r => digits 0 false r
  | t => digits 0 false t
  end.

End Py.

(** ** [struct.unpack(">h", chunk)[0]] *)

Definition byte_val (b : byte) : Z := Z.of_N (Byte.to_N b).

(** Two's complement reading of a 16-bit pattern. *)
Definition signed16 (u : Z) : Z :=
  if u <? 32768 then u else u - 65536.

Definition unpack_be_h (chunk : list byte) : result Z :=
  match chunk with
  | [hi; lo] => Ok (signed16 (Z.lor (Z.shiftl (byte_val hi) 8) (byte_val lo)))
  | _ => Raise StructError
  end.

(** The decode loop of lines 46-48 (and, word for word, 58-60):
    [[for j in range(0, len(raw_data), 2):
        sample = struct.unpack(">h", raw_data[j:j+2])[0]
        encoded_data.append((sample))]] *)
Fixpoint decode_loop (raw_data : list byte) (js : list nat)
    (encoded_data : list Z) : result (list Z) :=
  match js with
  | [] => Ok encoded_data
  | j :: js' =>
      match unpack_be_h (Py.slice raw_data j (j + 2)) with
      | Ok sample => decode_loop raw_data js' (encoded_data ++ [sample])
      | Raise e => Raise e
      end
  end.

Definition decode (raw_data : list byte) : result (list Z) :=
  decode_loop raw_data (Py.range_step2 0 (List.length raw_data)) [].

(** ** float32 *)

Definition float32 : Type := spec_float.

Definition f32_of_Z (n : Z) : float32 := binary_normalize 24 128 n 0 false.
Definition f32_div : float32 -> float32 -> float32 := SFdiv 24 128.

(** The value of a finite float32 as a rational; [None] for an infinity
    or a NaN. *)
Definition f32_to_Q (x : float32) : option Q :=
  match x with
  | S754_zero _ => Some 0%Q
  | S754_finite s m e =>
      let n := if s then Z.neg m else Z.pos m in
      Some (match e with
            | Z.neg p => Qmake n (2 ^ p)
            | _ => inject_Z (n * 2 ^ e)
            end)
  | _ => None
  end.

(** The binary32 bit pattern, as an integer below [2^32]. *)
Definition f32_bits (x : float32) : Z :=
  let sign (s : bool) := if s then Z.shiftl 1 31 else 0 in
  match x with
  | S754_zero s => sign s
  | S754_infinity s => Z.lor (sign s) (Z.shiftl 255 23)
  | S754_nan => Z.lor (Z.shiftl 255 23) (Z.shiftl 1 22)
  | S754_finite s m e =>
      if Z.pos m <? Z.shiftl 1 23
      then Z.lor (sign s) (Z.pos m)
      else Z.lor (sign s)
             (Z.lor (Z.shiftl (e + 150) 23) (Z.pos m - Z.shiftl 1 23))
  end.

Inductive byteorder : Type := little | big.

Definition byte_of_Z (z : Z) : byte :=
  match Byte.of_N (Z.to_N (Z.land z 255)) with
  | Some b => b
  | None => x00
  end.

Definition bytes4 (bo : byteorder) (w : Z) : list byte :=
  let le := [byte_of_Z w; byte_of_Z (Z.shiftr w 8);
             byte_of_Z (Z.shiftr w 16); byte_of_Z (Z.shiftr w 24)] in
  match bo with
  | little => le
  | big => rev le
  end.

(** [struct.pack("f", x)] for a Python integer [x]: [x] becomes a C
    double, the double a float; either step raises [OverflowError]
    rather than produce an infinity. *)
Definition f32_of_f64 (d : spec_float) : float32 :=
  match d with
  | S754_finite s m e => binary_round 24 128 s m e
  | other => other
  end.

Definition is_infinity (x : spec_float) : bool :=
  match x with
  | S754_infinity _ => true
  | _ => false
  end.

Definition pack_f (bo : byteorder) (x : Z) : result (list byte) :=
  let d := binary_normalize 53 1024 x 0 false in
  if is_infinity d then Raise OverflowError
  else
    let f := f32_of_f64 d in
    if is_infinity f then Raise OverflowError
    else Ok (bytes4 bo (f32_bits f)).

(** [a.tobytes()] for a float32 array *)
Definition tobytes (bo : byteorder) (a : list float32) : list byte :=
  flat_map (fun x => bytes4 bo (f32_bits x)) a.

(** ** The script's own pure part *)

Definition sample_size : nat := 128.

(** [np.iinfo(np.int16).max] *)
Definition int16_max : Z := 32767.

(** [[float_data = np.array(data, dtype=np.float32)
      float_data /= np.iinfo(np.int16).max]] *)
Definition convert_int_to_float (data : list Z) : list float32 :=
  map (fun x => f32_div (f32_of_Z x) (f32_of_Z int16_max)) data.

(** [encoded_data[40:sample_size + 40]] *)
Definition window (encoded_data : list Z) : list Z :=
  Py.slice encoded_data 40 (sample_size + 40).

(** [pattern = r'e(.*?)a'] with [re.findall(pattern, filename)[0]] *)
Definition find_azi (filename : string) : result string :=
  Py.index0 (Py.findall filename).

(** [number_range = [x for x in range(-40, 100, 10)]] *)
Definition number_range : list Z := Py.range (-40) 100 10.

(** An element [[i, int(azi), samples]] of [data_arrays]. *)
Record entry : Type := mk_entry {
  elevation : Z;
  azimuth : Z;
  data : list float32
}.

(** ** The world: file system, standard output, [data_arrays] *)

(** A directory lists its entries in the order [os.listdir] returns
    them.  An entry name is atomic (no name of a real directory entry
    holds a '/'), so the path [os.path.join(folder, name)] is kept as the
    pair of its two components; a path with one component names an entry
    of the working directory. *)
#[warnings="-register-all"]
Inductive node : Type :=
| File (content : list byte)
| Dir (entries : list (string * node)).

Fixpoint lookup {A} (name : string) (l : list (string * A)) : option A :=
  match l with
  | [] => None
  | (n, x) :: l' => if String.eqb n name then Some x else lookup name l'
  end.

(** Replace the entry called [name], or add it at the end. *)
Fixpoint set_entry {A} (name : string) (x : A) (l : list (string * A))
    : list (string * A) :=
  match l with
  | [] => [(name, x)]
  | (n, y) :: l' =>
      if String.eqb n name then (n, x) :: l'
      else (n, y) :: set_entry name x l'
  end.

Definition path : Type := (string * string)%type.

(** [os.path.join(folder_path, filename)] *)
Definition join (folder_path filename : string) : path :=
  (folder_path, filename).

Definition resolve (cwd : list (string * node)) (p : path) : option node :=
  match lookup (fst p) cwd with
  | Some (Dir entries) => lookup (snd p) entries
  | _ => None
  end.

(** What the run does that can be seen from outside, oldest first. *)
Inductive event : Type :=
| Listed (folder_path : string)
| Read (p : path)
| Printed (line : string)
| Created (name : string)
| Wrote (name : string) (bytes : list byte).

Record world : Type := mk_world {
  cwd : list (string * node);
  data_arrays : list entry;
  trace : list event
}.

Definition start (fs : list (string * node)) : world :=
  mk_world fs [] [].

Definition log (ev : event) (w : world) : world :=
  mk_world (cwd w) (data_arrays w) (trace w ++ [ev]).

(** A computation returns a value or raises, and leaves a world either
    way. *)
Definition M (A : Type) : Type := world -> result A * world.

Definition ret {A} (a : A) : M A := fun w => (Ok a, w).

Definition bind {A B} (c : M A) (k : A -> M B) : M B :=
  fun w =>
    match c w with
    | (Ok a, w') => k a w'
    | (Raise e, w') => (Raise e, w')
    end.

Definition lift {A} (r : result A) : M A := fun w => (r, w).

Declare Scope m_scope.
Delimit Scope m_scope with m.
Notation "x <- c ;; k" := (bind c (fun x => k))
  (at level 61, c at next level, right associativity) : m_scope.
Notation "c ;; k" := (bind c (fun _ => k))
  (at level 61, right associativity) : m_scope.
Local Open Scope m_scope.

(** [for x in l: body(x)] *)
Fixpoint for_each {A} (l : list A) (body : A -> M unit) : M unit :=
  match l with
  | [] => ret tt
  | x :: l' => body x ;; for_each l' body
  end.

(** [os.listdir(folder_path)] *)
Definition listdir (folder_path : string) : M (list string) :=
  fun w =>
    match lookup folder_path (cwd w) with
    | Some (Dir entries) => (Ok (map fst entries), log (Listed folder_path) w)
    | Some (File _) => (Raise NotADirectoryError, w)
    | None => (Raise FileNotFoundError, w)
    end.

(** [os.path.isfile(file_path)] *)
Definition isfile (file_path : path) : M bool :=
  fun w =>
    match resolve (cwd w) file_path with
    | Some (File _) => (Ok true, w)
    | _ => (Ok false, w)
    end.

(** [[with open(file_path, "rb") as file:
        raw_data = file.read()]] *)
Definition read_file (file_path : path) : M (list byte) :=
  fun w =>
    match resolve (cwd w) file_path with
    | Some (File content) => (Ok content, log (Read file_path) w)
    | Some (Dir _) => (Raise IsADirectoryError, w)
    | None => (Raise FileNotFoundError, w)
    end.

(** [print(line)] *)
Definition print (line : string) : M unit :=
  fun w => (Ok tt, log (Printed line) w).

(** [data_arrays.append(x)] *)
Definition append (x : entry) : M unit :=
  fun w => (Ok tt, mk_world (cwd w) (data_arrays w ++ [x]) (trace w)).

Definition get_data_arrays : M (list entry) :=
  fun w => (Ok (data_arrays w), w).

(** [open(name, "wb")] in the working directory: the file is created, or
    emptied when it exists. *)
Definition open_wb (name : string) : M unit :=
  fun w =>
    match lookup name (cwd w) with
    | Some (Dir _) => (Raise IsADirectoryError, w)
    | _ => (Ok tt, log (Created name)
                     (mk_world (set_entry name (File []) (cwd w))
                               (data_arrays w) (trace w)))
    end.

(** [file.write(bytes)] on the file opened as [name]; what is written
    reaches the file also when the [with] block is left by an
    exception. *)
Definition write (name : string) (bytes : list byte) : M unit :=
  fun w =>
    match lookup name (cwd w) with
    | Some (File content) =>
        (Ok tt, log (Wrote name bytes)
                  (mk_world (set_entry name (File (content ++ bytes)) (cwd w))
                            (data_arrays w) (trace w)))
    | _ => (Ok tt, w)
    end.

(** ** The script *)

Definition output_name : string :=
  ("hrtf_" ++ Py.str (Z.of_nat sample_size) ++ ".bin")%string.

(** Lines 16-28. *)
Definition save_data_to_file (bo : byteorder) (records : list entry)
    : M unit :=
  open_wb output_name ;;
  for_each records (fun r =>
    azimuth_bytes <- lift (pack_f bo (azimuth r)) ;;
    elevation_bytes <- lift (pack_f bo (elevation r)) ;;
    let data_bytes := tobytes bo (data r) in
    write output_name elevation_bytes ;;
    write output_name azimuth_bytes ;;
    write output_name data_bytes).

(** Lines 39-65: the body of the inner loop, for one name of the
    listing. *)
Definition scan_entry (i : Z) (folder_path filename : string) : M unit :=
  let file_path := join folder_path filename in
  is_file <- isfile file_path ;;
  if (is_file : bool) then
    raw_data <- read_file file_path ;;
    azi <- lift (find_azi filename) ;;
    encoded_data <- lift (decode raw_data) ;;
    azi_key <- lift (Py.int azi) ;;
    if Py.startswith filename "L" then
      az <- lift (Py.int azi) ;;
      append (mk_entry i az (convert_int_to_float (window encoded_data))) ;;
      let file_path := join folder_path (Py.replace1 filename "L" "R") in
      raw_data <- read_file file_path ;;
      azi <- lift (find_azi filename) ;;
      encoded_data <- lift (decode raw_data) ;;
      azi_key <- lift (Py.int azi) ;;
      print (Py.str (Z.of_nat (List.length (window encoded_data)))) ;;
      az <- lift (Py.int azi) ;;
      append (mk_entry i az (convert_int_to_float (window encoded_data)))
    else if Py.startswith filename "R" then
      ret tt
    else
      ret tt
  else
    ret tt.

(** Line 37: [folder_path = 'elev'+str(i)] *)
Definition folder_of (i : Z) : string := ("elev" ++ Py.str i)%string.

(** Lines 36-38: the outer loop body, for one elevation. *)
Definition scan_folder (i : Z) : M unit :=
  let folder_path := folder_of i in
  filenames <- listdir folder_path ;;
  for_each filenames (scan_entry i folder_path).

(** Lines 36-65. *)
Definition scan : M unit := for_each number_range scan_folder.

(** The whole script. *)
Definition main (bo : byteorder) : M unit :=
  scan ;;
  records <- get_data_arrays ;;
  save_data_to_file bo records.

(** ** Notions the statements below are written with *)

(** What the decode loop computes, read off the buffer two bytes at a
    time; [decode_is_pairs] shows that it agrees with [decode].  A lone
    last byte is a chunk of length one, which [struct.unpack] refuses. *)
Fixpoint decode_pairs (raw : list byte) : result (list Z) :=
  match raw with
  | [] => Ok []
  | [b] => Raise StructError
  | hi :: lo :: rest =>
      match unpack_be_h [hi; lo] with
      | Ok sample => rbind (decode_pairs rest) (fun t => Ok (sample :: t))
      | Raise e => Raise e
      end
  end.

(** The signed 16-bit integers. *)
Definition is_int16 (s : Z) : Prop := -32768 <= s <= 32767.

(** [count_up lo n] lists the [n] integers from [lo] upwards. *)
Fixpoint count_up (lo : Z) (n : nat) : list Z :=
  match n with
  | O => []
  | S k => lo :: count_up (lo + 1) k
  end.

Definition int16_values : list Z := count_up (-32768) (Z.to_nat 65536).

(** One sample through [convert_int_to_float]. *)
Definition normalize (s : Z) : float32 :=
  f32_div (f32_of_Z s) (f32_of_Z int16_max).

(** [normalize s] is a finite float32 [q] within float32 rounding of
    [s / 32767] (relative error at most [2^-24]), and [q] lies in
    [[-1, 1]] unless [s] is [-32768]. *)
Definition normalize_check (s : Z) : bool :=
  match f32_to_Q (normalize s) with
  | Some q =>
      Qle_bool (Qabs (q * inject_Z 32767 - inject_Z s) * inject_Z (2 ^ 24))
               (Qabs (inject_Z s))
      && implb (-32767 <=? s)
               (Qle_bool (inject_Z (-1)) q && Qle_bool q (inject_Z 1))
  | None => false
  end.

(** The same, as a proposition about a sample and the float32 made
    from it. *)
Definition normalized (s : Z) (x : float32) : Prop :=
  exists q : Q,
    f32_to_Q x = Some q /\
    (Qabs (q * inject_Z 32767 - inject_Z s) * inject_Z (2 ^ 24)
       <= Qabs (inject_Z s))%Q /\
    (-32767 <= s -> (inject_Z (-1) <= q)%Q /\ (q <= inject_Z 1)%Q).

(** The names [os.listdir] gives for a directory of the working
    directory, [[]] when there is no such directory. *)
Definition listing (fs : list (string * node)) (folder : string)
    : list string :=
  match lookup folder fs with
  | Some (Dir entries) => map fst entries
  | _ => []
  end.

(** The (elevation, name) pairs the inner loop body runs on, in order. *)
Definition jobs (fs : list (string * node)) : list (Z * string) :=
  flat_map (fun i => map (fun name => (i, name)) (listing fs (folder_of i)))
           number_range.

(** A scan root that is treated as a left channel: a regular file whose
    name starts with 'L'. *)
Definition is_left_file (fs : list (string * node)) (job : Z * string)
    : bool :=
  match resolve fs (join (folder_of (fst job)) (snd job)) with
  | Some (File _) => Py.startswith (snd job) "L"
  | _ => false
  end.

Definition left_count (fs : list (string * node)) : nat :=
  List.length (filter (is_left_file fs) (jobs fs)).

(** The two records of a left-channel scan root [job]: both carry the
    elevation of the directory and the azimuth parsed from the name of
    the left file; the samples of the second come from the file whose
    name has its first 'L' replaced by 'R'. *)
Definition pair_of (fs : list (string * node)) (job : Z * string)
    (p : entry * entry) : Prop :=
  let i := fst job in
  let folder := folder_of i in
  let name := snd job in
  exists azi az raw_l enc_l raw_r enc_r,
    find_azi name = Ok azi /\ Py.int azi = Ok az /\
    resolve fs (join folder name) = Some (File raw_l) /\
    decode raw_l = Ok enc_l /\
    resolve fs (join folder (Py.replace1 name "L" "R")) = Some (File raw_r) /\
    decode raw_r = Ok enc_r /\
    p = (mk_entry i az (convert_int_to_float (window enc_l)),
         mk_entry i az (convert_int_to_float (window enc_r))).

(** [data_arrays] as a sequence of pairs. *)
Definition unpair (pairs : list (entry * entry)) : list entry :=
  flat_map (fun p => [fst p; snd p]) pairs.

(** What a completed pass of the loop body over [job] has appended. *)
Definition emits (fs : list (string * node)) (job : Z * string)
    (emitted : list entry) : Prop :=
  if is_left_file fs job
  then exists p, pair_of fs job p /\ emitted = [fst p; snd p]
  else emitted = [].

(** Every regular file of every elevation directory holds at least 168
    samples, that is 336 bytes. *)
Definition long_files (fs : list (string * node)) : Prop :=
  forall i entries name content,
    In i number_range ->
    lookup (folder_of i) fs = Some (Dir entries) ->
    In (name, File content) entries ->
    (336 <= List.length content)%nat.

(** The bytes of one record of the archive. *)
Definition record_bytes (bo : byteorder) (r : entry) (chunk : list byte)
    : Prop :=
  exists elevation_bytes azimuth_bytes,
    pack_f bo (elevation r) = Ok elevation_bytes /\
    pack_f bo (azimuth r) = Ok azimuth_bytes /\
    List.length elevation_bytes = 4%nat /\
    List.length azimuth_bytes = 4%nat /\
    chunk = elevation_bytes ++ azimuth_bytes ++ tobytes bo (data r).

Definition is_scan_event (ev : event) : Prop :=
  match ev with
  | Listed _ | Read _ | Printed _ => True
  | Created _ | Wrote _ _ => False
  end.

Definition is_write_event (ev : event) : Prop :=
  match ev with
  | Created _ | Wrote _ _ => True
  | Listed _ | Read _ | Printed _ => False
  end.

(** How the traversal may change the world: files stay as they are, the
    trace grows by scan events, [data_arrays] grows at its end. *)
Definition scan_step (w w' : world) : Prop :=
  cwd w' = cwd w /\
  (exists evs, trace w' = trace w ++ evs /\ Forall is_scan_event evs) /\
  (exists more, data_arrays w' = data_arrays w ++ more).

(** How the write phase may change it: only the output file and the
    trace, by write events. *)
Definition save_step (w w' : world) : Prop :=
  data_arrays w' = data_arrays w /\
  (exists evs, trace w' = trace w ++ evs /\ Forall is_write_event evs) /\
  (forall name, name <> output_name ->
     lookup name (cwd w') = lookup name (cwd w)).

(** A computation all of whose runs are related by [R]. *)
Definition respects (R : world -> world -> Prop) {A} (c : M A) : Prop :=
  forall w, R w (snd (c w)).

(** Sample file systems: the fourteen elevation directories, empty but
    for the one of elevation [i], which holds [entries]. *)
Definition tree (i : Z) (entries : list (string * node))
    : list (string * node) :=
  map (fun j => (folder_of j, Dir (if j =? i then entries else [])))
      number_range.

(** The 400 bytes of 200 samples, the k-th being k. *)
Definition ramp200 : list byte :=
  flat_map (fun k => [x00; byte_of_Z (Z.of_nat k)]) (seq 0 200).

(** The file of the specification's example, with its counterpart. *)
Definition fs_example : list (string * node) :=
  tree 40 [("Le40a90.bin"%string, File ramp200);
           ("Re40a90.bin"%string, File ramp200)].

(** A pair of short files: 2 samples on the left, 50 on the right. *)
Definition fs_short : list (string * node) :=
  tree 40 [("L40e090a.dat"%string, File [x00; x01; x00; x02]);
           ("R40e090a.dat"%string, File (repeat x01 100))].

(** A right-channel file of one byte, without a left-channel file. *)
Definition fs_right_only : list (string * node) :=
  tree (-40) [("R-40e000a.dat"%string, File [x01])].

(** A file that is neither a left nor a right channel. *)
Definition fs_notes : list (string * node) :=
  tree 0 [("notes.txt"%string, File [])].

(** A left-channel file without its counterpart. *)
Definition fs_unpaired : list (string * node) :=
  tree 0 [("L0e005a.dat"%string, File [x00; x01])].

(** An azimuth beyond the float32 range in the second pair. *)
Definition fs_overflow : list (string * node) :=
  tree 0 [("L0e005a.dat"%string, File []);
          ("R0e005a.dat"%string, File []);
          ("L0e1000000000000000000000000000000000000000a.dat"%string, File []);
          ("R0e1000000000000000000000000000000000000000a.dat"%string, File [])].

(** ** Notions of the further properties *)

(** [struct.pack(">h", s)], the inverse of what the decode loop reads:
    the two bytes of [s] in two's complement, high byte first. *)
Definition pack_be_h (s : Z) : list byte :=
  [byte_of_Z (Z.shiftr s 8); byte_of_Z s].

(** The bytes of a file that holds [samples]. *)
Definition encode (samples : list Z) : list byte :=
  flat_map pack_be_h samples.

Definition pack_round_trip_check (s : Z) : bool :=
  match unpack_be_h (pack_be_h s) with
  | Ok s' => s' =? s
  | Raise _ => false
  end.

Definition unpack_round_trip_check (h l : Z) : bool :=
  match unpack_be_h [byte_of_Z h; byte_of_Z l] with
  | Ok s =>
      match pack_be_h s with
      | [hi; lo] => Byte.eqb hi (byte_of_Z h) && Byte.eqb lo (byte_of_Z l)
      | _ => false
      end
  | Raise _ => false
  end.

Definition byte_values : list Z := count_up 0 256.

(** The characters of a string. *)
Definition has_char (c : ascii) (s : string) : Prop :=
  In c (list_ascii_of_string s).

(** [name] holds a match of [e(.*?)a] with group [azi]: an 'e', then
    [azi], free of newlines, then an 'a'. *)
Definition matches_at (name pre azi post : string) : Prop :=
  name = (pre ++ String "e" (azi ++ String "a" post))%string /\
  ~ has_char Py.newline azi.

(** Two trees with the same elevation directories. *)
Definition same_elevations (fs1 fs2 : list (string * node)) : Prop :=
  forall i, lookup (folder_of i) fs1 = lookup (folder_of i) fs2.

(** Worlds that differ at most in files other than the elevation
    directories. *)
Definition same_inputs (w1 w2 : world) : Prop :=
  same_elevations (cwd w1) (cwd w2) /\
  data_arrays w1 = data_arrays w2 /\
  trace w1 = trace w2.

(** A computation whose result, records and trace are the same in any
    two worlds with the same inputs. *)
Definition reads_inputs_only {A} (c : M A) : Prop :=
  forall w1 w2,
    same_inputs w1 w2 ->
    fst (c w1) = fst (c w2) /\ same_inputs (snd (c w1)) (snd (c w2)).



(** The fourteen directories, all empty. *)
Definition fs_empty : list (string * node) := tree 0 [].


(** The records up to the first one that [struct.pack] refuses. *)
Fixpoint packable_prefix (bo : byteorder) (records : list entry)
    : list entry :=
  match records with
  | [] => []
  | r :: rest =>
      match pack_f bo (azimuth r), pack_f bo (elevation r) with
      | Ok _, Ok _ => r :: packable_prefix bo rest
      | _, _ => []
      end
  end.

(** * Properties *)

(** ** The PCM decoder *)

Lemma slice_at_prefix (pre : list byte) (hi lo : byte) (rest : list byte) :
  Py.slice (pre ++ hi :: lo :: rest) (List.length pre) (List.length pre + 2)
  = [hi; lo].
Proof.
  unfold Py.slice.
  replace (List.length pre + 2 - List.length pre)%nat with 2%nat by lia.
  rewrite skipn_app, skipn_all, Nat.sub_diag. reflexivity.
Qed.

Lemma slice_last_byte (pre : list byte) (b : byte) :
  Py.slice (pre ++ [b]) (List.length pre) (List.length pre + 2) = [b].
Proof.
  unfold Py.slice.
  replace (List.length pre + 2 - List.length pre)%nat with 2%nat by lia.
  rewrite skipn_app, skipn_all, Nat.sub_diag. reflexivity.
Qed.

(** Induction two elements at a time. *)
Lemma list_pair_ind {A} (P : list A -> Prop) :
  P [] -> (forall x, P [x]) ->
  (forall x y l, P l -> P (x :: y :: l)) ->
  forall l, P l.
Proof.
  intros Hnil Hone Hstep.
  assert (Hboth : forall l, P l /\ forall x, P (x :: l)).
  { induction l as [|y l [IH1 IH2]]; split; auto. }
  intro l. apply Hboth.
Qed.

Lemma decode_loop_is_pairs (raw : list byte) :
  forall pre encoded_data,
    decode_loop (pre ++ raw)
                (Py.range_step2 (List.length pre) (List.length raw))
                encoded_data
    = rbind (decode_pairs raw) (fun t => Ok (encoded_data ++ t)).
Proof.
  induction raw as [|b|hi lo rest IH] using list_pair_ind; intros pre acc.
  - simpl. now rewrite app_nil_r.
  - simpl. now rewrite slice_last_byte.
  - cbn [List.length Py.range_step2 decode_loop decode_pairs].
    rewrite slice_at_prefix.
    cbn [unpack_be_h].
    replace (pre ++ hi :: lo :: rest) with ((pre ++ [hi; lo]) ++ rest)
      by now rewrite <- app_assoc.
    replace (S (S (List.length pre))) with (List.length (pre ++ [hi; lo]))
      by (rewrite length_app; simpl; lia).
    rewrite IH.
    destruct (decode_pairs rest) as [t|e]; simpl; [|reflexivity].
    now rewrite <- app_assoc.
Qed.

Lemma decode_is_pairs (raw : list byte) : decode raw = decode_pairs raw.
Proof.
  unfold decode.
  pose proof (decode_loop_is_pairs raw [] []) as H.
  cbn [app List.length] in H. rewrite H.
  now destruct (decode_pairs raw).
Qed.

Lemma decode_pairs_odd (raw : list byte) :
  Nat.odd (List.length raw) = true -> decode_pairs raw = Raise StructError.
Proof.
  induction raw as [|b|hi lo rest IH] using list_pair_ind; intro Hodd.
  - discriminate.
  - reflexivity.
  - cbn [decode_pairs unpack_be_h].
    rewrite IH; [reflexivity|].
    exact Hodd.
Qed.

Lemma decode_pairs_length (raw : list byte) :
  forall samples,
    decode_pairs raw = Ok samples ->
    List.length raw = (2 * List.length samples)%nat.
Proof.
  induction raw as [|b|hi lo rest IH] using list_pair_ind; intros samples H.
  - inversion H. reflexivity.
  - discriminate.
  - cbn [decode_pairs unpack_be_h] in H.
    destruct (decode_pairs rest) as [t|e]; [|discriminate].
    inversion H; subst. simpl. rewrite (IH t eq_refl). lia.
Qed.

Lemma decode_pairs_even (raw : list byte) :
  Nat.even (List.length raw) = true -> exists samples, decode_pairs raw = Ok samples.
Proof.
  induction raw as [|b|hi lo rest IH] using list_pair_ind; intro Heven.
  - now exists [].
  - discriminate.
  - destruct (IH Heven) as [t Ht].
    cbn [decode_pairs unpack_be_h]. rewrite Ht. simpl. eauto.
Qed.

Lemma decode_length (raw : list byte) (samples : list Z) :
  decode raw = Ok samples -> List.length raw = (2 * List.length samples)%nat.
Proof. rewrite decode_is_pairs. apply decode_pairs_length. Qed.

(** C2, as the script has it: on a buffer of odd length the loop reaches
    the trailing one-byte chunk, [struct.unpack] raises on it, and no
    sample list is produced; the byte is not dropped silently. *)
Theorem C2_decode_odd_length_raises (raw_data : list byte) :
  Nat.odd (List.length raw_data) = true ->
  decode raw_data = Raise StructError.
Proof.
  intro Hodd. rewrite decode_is_pairs. now apply decode_pairs_odd.
Qed.

Lemma C2_decode_odd_length_raises_witness :
  decode [x12; x34; x56] = Raise StructError.
Proof. apply C2_decode_odd_length_raises. reflexivity. Defined.

(** C2, as the specification words it, fails: on the three bytes
    [12 34 56] the decoder returns no sample list at all. *)
Lemma C2_trailing_byte_not_dropped :
  Nat.odd (List.length [x12; x34; x56]) = true /\
  ~ exists samples, decode [x12; x34; x56] = Ok samples.
Proof.
  split; [reflexivity|].
  intros [samples H]. vm_compute in H. discriminate.
Qed.

(** ** Windowing *)

Lemma window_length (encoded_data : list Z) :
  List.length (window encoded_data)
  = Nat.min 128 (List.length encoded_data - 40).
Proof.
  unfold window, Py.slice, sample_size.
  rewrite length_firstn, length_skipn. reflexivity.
Qed.

Lemma convert_length (samples : list Z) :
  List.length (convert_int_to_float samples) = List.length samples.
Proof. unfold convert_int_to_float. apply length_map. Qed.

(** ** Normalization *)

Lemma in_count_up (n : nat) :
  forall lo s, lo <= s < lo + Z.of_nat n -> In s (count_up lo n).
Proof.
  induction n as [|n IH]; intros lo s H.
  - lia.
  - simpl. destruct (Z.eq_dec lo s) as [->|Hne]; [now left|].
    right. apply IH. lia.
Qed.

Lemma normalize_check_int16 :
  forallb normalize_check int16_values = true.
Proof. vm_cast_no_check (eq_refl true). Qed.

Lemma normalize_check_sound (s : Z) :
  normalize_check s = true -> normalized s (normalize s).
Proof.
  unfold normalize_check, normalized.
  destruct (f32_to_Q (normalize s)) as [q|]; [|discriminate].
  intro H. apply andb_true_iff in H. destruct H as [Hnear Hunit].
  exists q. split; [reflexivity|]. split.
  - now apply Qle_bool_iff.
  - intro Hs. apply Z.leb_le in Hs. rewrite Hs in Hunit. simpl in Hunit.
    apply andb_true_iff in Hunit. destruct Hunit as [Hlo Hhi].
    split; now apply Qle_bool_iff.
Qed.

Lemma normalize_int16 (s : Z) : is_int16 s -> normalized s (normalize s).
Proof.
  intro Hs. apply normalize_check_sound.
  pose proof normalize_check_int16 as Hall.
  rewrite forallb_forall in Hall. apply Hall.
  apply in_count_up. unfold is_int16 in Hs. lia.
Qed.

Lemma normalized_samples (samples : list Z) :
  Forall is_int16 samples ->
  Forall2 normalized samples (convert_int_to_float samples).
Proof.
  induction 1 as [|s rest Hs _ IH]; simpl; constructor.
  - now apply normalize_int16.
  - exact IH.
Qed.

(** C4, as the script has it: every signed 16-bit sample [s] becomes a
    finite float32 [q] within float32 rounding of [s / 32767]
    ([|q * 32767 - s| <= 2^-24 * |s|]), and [q] lies in [[-1, 1]] for
    every [s] from -32767 up; nothing is promised there for
    [s = -32768]. *)
Theorem C4_samples_divided_by_32767 (samples : list Z) :
  Forall is_int16 samples ->
  Forall2 normalized samples (convert_int_to_float samples).
Proof.
  intro Hall. induction Hall as [|s rest Hs _ IH]; simpl.
  - constructor.
  - constructor; [apply normalize_check_sound|exact IH].
    pose proof normalize_check_int16 as Hchecked.
    rewrite forallb_forall in Hchecked. apply Hchecked.
    apply in_count_up. unfold is_int16 in Hs. lia.
Qed.

Lemma C4_samples_divided_by_32767_witness :
  Forall2 normalized [0; 1; -32767; 32767; -32768]
          (convert_int_to_float [0; 1; -32767; 32767; -32768]).
Proof.
  apply C4_samples_divided_by_32767.
  repeat constructor; unfold is_int16; lia.
Defined.

(** C4, as the specification words it, fails at the sample -32768: its
    normalized value is -32769/32768, below -1. *)
Lemma C4_minimum_sample_below_minus_one :
  is_int16 (-32768) /\
  exists x q,
    convert_int_to_float [-32768] = [x] /\
    f32_to_Q x = Some q /\
    (q == -32769 # 32768)%Q /\ (q < inject_Z (-1))%Q.
Proof.
  split; [unfold is_int16; lia|].
  eexists. eexists. split; [reflexivity|].
  split; [vm_compute; reflexivity|].
  split; reflexivity.
Qed.

(** ** Running computations *)

Lemma bind_ok {A B} (c : M A) (k : A -> M B) (w w' : world) (b : B) :
  bind c k w = (Ok b, w') ->
  exists a w1, c w = (Ok a, w1) /\ k a w1 = (Ok b, w').
Proof.
  unfold bind. destruct (c w) as [[a|e] w1]; intro H.
  - now exists a, w1.
  - discriminate.
Qed.

Lemma bind_raise_first {A B} (c : M A) (k : A -> M B) (w w' : world)
    (e : exn) :
  c w = (Raise e, w') -> bind c k w = (Raise e, w').
Proof. unfold bind. now intros ->. Qed.

Lemma lift_ok {A} (r : result A) (w w' : world) (a : A) :
  lift r w = (Ok a, w') -> r = Ok a /\ w' = w.
Proof. unfold lift. intro H. now inversion H. Qed.

Lemma for_each_raise_first {A} (body : A -> M unit) (x : A) (l : list A)
    (w w' : world) (e : exn) :
  body x w = (Raise e, w') -> for_each (x :: l) body w = (Raise e, w').
Proof. intro H. simpl. now apply bind_raise_first. Qed.

(** An exception raised by the body leaves the loop at once. *)
Lemma for_each_raise_at {A} (body : A -> M unit) (before : list A) :
  forall (x : A) (after : list A) (w w1 w2 : world) (e : exn),
    for_each before body w = (Ok tt, w1) ->
    body x w1 = (Raise e, w2) ->
    for_each (before ++ x :: after) body w = (Raise e, w2).
Proof.
  induction before as [|y before IH]; intros x after w w1 w2 e Hbefore Hx.
  - inversion Hbefore; subst w1. now apply for_each_raise_first.
  - simpl in Hbefore. apply bind_ok in Hbefore.
    destruct Hbefore as ([] & w0 & Hy & Hrest).
    simpl. unfold bind at 1. rewrite Hy. now apply (IH x after w0 w1).
Qed.

Section Respects.

Variable R : world -> world -> Prop.
Hypothesis R_refl : forall w, R w w.
Hypothesis R_trans : forall w1 w2 w3, R w1 w2 -> R w2 w3 -> R w1 w3.

Lemma respects_ret {A} (a : A) : respects R (ret a).
Proof. intro w. apply R_refl. Qed.

Lemma respects_lift {A} (r : result A) : respects R (lift r).
Proof. intro w. apply R_refl. Qed.

Lemma respects_bind {A B} (c : M A) (k : A -> M B) :
  respects R c -> (forall a, respects R (k a)) -> respects R (bind c k).
Proof.
  intros Hc Hk w. unfold bind.
  specialize (Hc w). destruct (c w) as [[a|e] w1]; simpl in *.
  - eapply R_trans; [exact Hc|]. apply Hk.
  - exact Hc.
Qed.

Lemma respects_for_each {A} (l : list A) (body : A -> M unit) :
  (forall x, respects R (body x)) -> respects R (for_each l body).
Proof.
  intro Hbody. induction l as [|x l IH]; simpl.
  - apply respects_ret.
  - apply respects_bind; [apply Hbody|]. intros _. exact IH.
Qed.

End Respects.

Lemma scan_step_refl (w : world) : scan_step w w.
Proof.
  repeat split.
  - exists []. split; [now rewrite app_nil_r|constructor].
  - exists []. now rewrite app_nil_r.
Qed.

Lemma scan_step_trans (w1 w2 w3 : world) :
  scan_step w1 w2 -> scan_step w2 w3 -> scan_step w1 w3.
Proof.
  intros (Hc1 & (ev1 & Ht1 & He1) & (m1 & Hd1))
         (Hc2 & (ev2 & Ht2 & He2) & (m2 & Hd2)).
  repeat split.
  - congruence.
  - exists (ev1 ++ ev2). split.
    + rewrite Ht2, Ht1. now rewrite app_assoc.
    + apply Forall_app. now split.
  - exists (m1 ++ m2). rewrite Hd2, Hd1. now rewrite app_assoc.
Qed.

Lemma scan_step_log (ev : event) (w : world) :
  is_scan_event ev -> scan_step w (log ev w).
Proof.
  intro Hev. repeat split; simpl.
  - exists [ev]. split; [reflexivity|]. now constructor.
  - exists []. now rewrite app_nil_r.
Qed.

Lemma listdir_scan_step (folder_path : string) :
  respects scan_step (listdir folder_path).
Proof.
  intro w. unfold listdir.
  destruct (lookup folder_path (cwd w)) as [[c|es]|]; simpl;
    try apply scan_step_refl.
  now apply scan_step_log.
Qed.

Lemma isfile_scan_step (p : path) : respects scan_step (isfile p).
Proof.
  intro w. unfold isfile.
  destruct (resolve (cwd w) p) as [[c|es]|]; simpl; apply scan_step_refl.
Qed.

Lemma read_file_scan_step (p : path) : respects scan_step (read_file p).
Proof.
  intro w. unfold read_file.
  destruct (resolve (cwd w) p) as [[c|es]|]; simpl;
    try apply scan_step_refl.
  now apply scan_step_log.
Qed.

Lemma print_scan_step (line : string) : respects scan_step (print line).
Proof. intro w. now apply scan_step_log. Qed.

Lemma append_scan_step (x : entry) : respects scan_step (append x).
Proof.
  intro w. repeat split; simpl.
  - exists []. split; [now rewrite app_nil_r|constructor].
  - now exists [x].
Qed.

Ltac scan_step_tac :=
  repeat first
    [ apply (respects_bind scan_step scan_step_trans)
    | apply (respects_ret scan_step scan_step_refl)
    | apply (respects_lift scan_step scan_step_refl)
    | apply (respects_for_each scan_step scan_step_refl scan_step_trans)
    | apply listdir_scan_step | apply isfile_scan_step
    | apply read_file_scan_step | apply print_scan_step
    | apply append_scan_step
    | match goal with
      | |- respects _ (if ?b then _ else _) => destruct b
      | |- forall _, respects _ _ => intro
      end ].

Lemma scan_entry_scan_step (i : Z) (folder_path filename : string) :
  respects scan_step (scan_entry i folder_path filename).
Proof. unfold scan_entry. scan_step_tac. Qed.

Lemma scan_folder_scan_step (i : Z) : respects scan_step (scan_folder i).
Proof.
  unfold scan_folder.
  apply (respects_bind scan_step scan_step_trans);
    [apply listdir_scan_step|intro filenames].
  apply (respects_for_each scan_step scan_step_refl scan_step_trans).
  intro filename. apply scan_entry_scan_step.
Qed.

Lemma scan_scan_step : respects scan_step scan.
Proof.
  unfold scan.
  apply (respects_for_each scan_step scan_step_refl scan_step_trans).
  apply scan_folder_scan_step.
Qed.
(** ** One pass of the loop body *)

(** The body, with its binds run: what it returns and the world it
    leaves, by cases on what it meets. *)
Lemma scan_entry_run (i : Z) (folder_path filename : string) (w : world) :
  scan_entry i folder_path filename w =
  match resolve (cwd w) (join folder_path filename) with
  | Some (File raw_l) =>
      let w1 := log (Read (join folder_path filename)) w in
      match find_azi filename, decode raw_l with
      | Raise e, _ => (Raise e, w1)
      | Ok _, Raise e => (Raise e, w1)
      | Ok azi, Ok enc_l =>
          match Py.int azi with
          | Raise e => (Raise e, w1)
          | Ok az =>
              if Py.startswith filename "L" then
                let left := mk_entry i az (convert_int_to_float (window enc_l)) in
                let w2 := mk_world (cwd w) (data_arrays w ++ [left]) (trace w1) in
                let right_path := join folder_path (Py.replace1 filename "L" "R") in
                match resolve (cwd w) right_path with
                | Some (File raw_r) =>
                    let w3 := log (Read right_path) w2 in
                    match decode raw_r with
                    | Raise e => (Raise e, w3)
                    | Ok enc_r =>
                        let right := mk_entry i az (convert_int_to_float (window enc_r)) in
                        let line := Py.str (Z.of_nat (List.length (window enc_r))) in
                        (Ok tt, mk_world (cwd w) (data_arrays w ++ [left; right])
                                         (trace w ++ [Read (join folder_path filename);
                                                      Read right_path; Printed line]))
                    end
                | Some (Dir _) => (Raise IsADirectoryError, w2)
                | None => (Raise FileNotFoundError, w2)
                end
              else (Ok tt, w1)
          end
      end
  | _ => (Ok tt, w)
  end.
Proof.
  unfold scan_entry, bind, isfile, read_file, lift, append, print, ret.
  cbv beta zeta.
  destruct (resolve (cwd w) (join folder_path filename)) as [[raw_l|es]|] eqn:Hl;
    try reflexivity.
  rewrite Hl.
  destruct (find_azi filename) as [azi|e]; [|reflexivity].
  destruct (decode raw_l) as [enc_l|e]; [|reflexivity].
  destruct (Py.int azi) as [az|e]; [|reflexivity].
  destruct (Py.startswith filename "L"); cbn [log cwd data_arrays trace].
  - destruct (resolve (cwd w) (join folder_path (Py.replace1 filename "L" "R")))
      as [[raw_r|es]|]; try reflexivity.
    destruct (decode raw_r) as [enc_r|e]; [|reflexivity].
    cbn [log cwd data_arrays trace].
    now rewrite <- !app_assoc.
  - now destruct (Py.startswith filename "R").
Qed.

(** A pass that completes has appended what [emits] says. *)
Lemma scan_entry_ok (i : Z) (filename : string) (w w' : world) :
  scan_entry i (folder_of i) filename w = (Ok tt, w') ->
  cwd w' = cwd w /\
  exists emitted,
    data_arrays w' = data_arrays w ++ emitted /\
    emits (cwd w) (i, filename) emitted.
Proof.
  rewrite scan_entry_run. unfold emits, is_left_file. cbn [fst snd].
  destruct (resolve (cwd w) (join (folder_of i) filename))
    as [[raw_l|es]|] eqn:Hl.
  - cbv zeta.
    destruct (find_azi filename) as [azi|e] eqn:Hazi;
      [|destruct (decode raw_l); discriminate].
    destruct (decode raw_l) as [enc_l|e] eqn:Hdl; [|discriminate].
    destruct (Py.int azi) as [az|e] eqn:Haz; [|discriminate].
    destruct (Py.startswith filename "L").
    + destruct (resolve (cwd w)
                  (join (folder_of i) (Py.replace1 filename "L" "R")))
        as [[raw_r|es]|] eqn:Hr; try discriminate.
      destruct (decode raw_r) as [enc_r|e] eqn:Hdr; [|discriminate].
      intro H. inversion H; subst w'; clear H. cbn [cwd data_arrays].
      split; [reflexivity|].
      eexists. split; [reflexivity|].
      eexists (_, _). split; [|reflexivity].
      exists azi, az, raw_l, enc_l, raw_r, enc_r. cbn [fst snd].
      repeat split; assumption.
    + intro H. inversion H; subst w'; clear H. cbn [log cwd data_arrays].
      split; [reflexivity|]. exists []. now rewrite app_nil_r.
  - intro H. inversion H; subst w'. split; [reflexivity|].
    exists []. now rewrite app_nil_r.
  - intro H. inversion H; subst w'. split; [reflexivity|].
    exists []. now rewrite app_nil_r.
Qed.

Lemma inner_loop_ok (i : Z) (filenames : list string) :
  forall w w',
    for_each filenames (scan_entry i (folder_of i)) w = (Ok tt, w') ->
    cwd w' = cwd w /\
    exists ems,
      Forall2 (emits (cwd w)) (map (fun name => (i, name)) filenames) ems /\
      data_arrays w' = data_arrays w ++ List.concat ems.
Proof.
  induction filenames as [|name rest IH]; intros w w' H.
  - inversion H; subst w'. split; [reflexivity|].
    exists []. split; [constructor|]. simpl. now rewrite app_nil_r.
  - simpl in H. apply bind_ok in H. destruct H as ([] & w1 & H1 & H2).
    apply scan_entry_ok in H1. destruct H1 as (Hc1 & em & Hd1 & Hem).
    apply IH in H2. destruct H2 as (Hc2 & ems & Hall & Hd2).
    split; [congruence|].
    exists (em :: ems). split.
    + simpl. constructor; [exact Hem|]. now rewrite <- Hc1.
    + simpl. rewrite Hd2, Hd1. now rewrite app_assoc.
Qed.

Lemma scan_folder_ok (i : Z) (w w' : world) :
  scan_folder i w = (Ok tt, w') ->
  cwd w' = cwd w /\
  exists ems,
    Forall2 (emits (cwd w))
            (map (fun name => (i, name)) (listing (cwd w) (folder_of i))) ems /\
    data_arrays w' = data_arrays w ++ List.concat ems.
Proof.
  unfold scan_folder. intro H.
  apply bind_ok in H. destruct H as (filenames & w1 & H1 & H2).
  unfold listdir in H1. unfold listing.
  destruct (lookup (folder_of i) (cwd w)) as [[c|es]|]; try discriminate.
  inversion H1; subst; clear H1.
  apply inner_loop_ok in H2. exact H2.
Qed.

Lemma outer_loop_ok (elevations : list Z) :
  forall w w',
    for_each elevations scan_folder w = (Ok tt, w') ->
    cwd w' = cwd w /\
    exists ems,
      Forall2 (emits (cwd w))
              (flat_map (fun i => map (fun name => (i, name))
                                      (listing (cwd w) (folder_of i)))
                        elevations) ems /\
      data_arrays w' = data_arrays w ++ List.concat ems.
Proof.
  induction elevations as [|i rest IH]; intros w w' H.
  - inversion H; subst w'. split; [reflexivity|].
    exists []. split; [constructor|]. simpl. now rewrite app_nil_r.
  - simpl in H. apply bind_ok in H. destruct H as ([] & w1 & H1 & H2).
    apply scan_folder_ok in H1. destruct H1 as (Hc1 & ems1 & Hall1 & Hd1).
    apply IH in H2. destruct H2 as (Hc2 & ems2 & Hall2 & Hd2).
    split; [congruence|].
    exists (ems1 ++ ems2). split.
    + simpl. apply Forall2_app; [exact Hall1|]. now rewrite <- Hc1.
    + rewrite List.concat_app, Hd2, Hd1. now rewrite app_assoc.
Qed.

Lemma emits_pairs (fs : list (string * node)) (js : list (Z * string))
    (ems : list (list entry)) :
  Forall2 (emits fs) js ems ->
  exists pairs,
    Forall2 (pair_of fs) (filter (is_left_file fs) js) pairs /\
    List.concat ems = unpair pairs.
Proof.
  induction 1 as [|job em js ems Hem _ (pairs & Hp & Hc)].
  - exists []. split; [constructor|reflexivity].
  - unfold emits in Hem. simpl.
    destruct (is_left_file fs job).
    + destruct Hem as (p & Hpair & ->).
      exists (p :: pairs). split; [now constructor|].
      simpl. now rewrite Hc.
    + subst em. exists pairs. now split.
Qed.

(** A traversal that completes leaves in [data_arrays] the pairs of the
    left-channel scan roots, in the order of the traversal. *)
Lemma scan_ok (fs : list (string * node)) (w' : world) :
  scan (start fs) = (Ok tt, w') ->
  cwd w' = fs /\
  exists pairs,
    Forall2 (pair_of fs) (filter (is_left_file fs) (jobs fs)) pairs /\
    data_arrays w' = unpair pairs.
Proof.
  intro H. apply outer_loop_ok in H.
  destruct H as (Hc & ems & Hall & Hd). cbn [start cwd data_arrays] in *.
  split; [exact Hc|].
  apply emits_pairs in Hall. destruct Hall as (pairs & Hp & Hcat).
  exists pairs. split; [exact Hp|]. now rewrite Hd, Hcat.
Qed.

(** ** The write phase *)

Lemma lookup_set_entry_eq {A} (name : string) (x : A)
    (l : list (string * A)) :
  lookup name (set_entry name x l) = Some x.
Proof.
  induction l as [|[n y] l IH]; simpl.
  - now rewrite String.eqb_refl.
  - destruct (String.eqb n name) eqn:E; simpl; rewrite E; [reflexivity|exact IH].
Qed.

Lemma lookup_set_entry_neq {A} (name other : string) (x : A)
    (l : list (string * A)) :
  other <> name -> lookup other (set_entry name x l) = lookup other l.
Proof.
  intro Hne. induction l as [|[n y] l IH]; simpl.
  - destruct (String.eqb name other) eqn:E; [|reflexivity].
    apply String.eqb_eq in E. congruence.
  - destruct (String.eqb n name) eqn:E; simpl.
    + apply String.eqb_eq in E. subst n.
      destruct (String.eqb name other) eqn:E'; [|reflexivity].
      apply String.eqb_eq in E'. congruence.
    + now rewrite IH.
Qed.

Lemma lookup_In {A} (name : string) (x : A) (l : list (string * A)) :
  lookup name l = Some x -> In (name, x) l.
Proof.
  induction l as [|[n y] l IH]; simpl; [discriminate|].
  destruct (String.eqb n name) eqn:E.
  - apply String.eqb_eq in E. intro H. inversion H. subst. now left.
  - intro H. right. now apply IH.
Qed.

Lemma bytes4_length (bo : byteorder) (bits : Z) :
  List.length (bytes4 bo bits) = 4%nat.
Proof. now destruct bo. Qed.

Lemma pack_f_length (bo : byteorder) (x : Z) (bytes : list byte) :
  pack_f bo x = Ok bytes -> List.length bytes = 4%nat.
Proof.
  unfold pack_f. cbv zeta.
  destruct (is_infinity (binary_normalize 53 1024 x 0 false));
    [discriminate|].
  destruct (is_infinity (f32_of_f64 (binary_normalize 53 1024 x 0 false)));
    [discriminate|].
  intro H. inversion H. apply bytes4_length.
Qed.

Lemma tobytes_length (bo : byteorder) (a : list float32) :
  List.length (tobytes bo a) = (4 * List.length a)%nat.
Proof.
  unfold tobytes. induction a as [|x a IH]; [reflexivity|].
  cbn [flat_map]. rewrite length_app, bytes4_length, IH. simpl. lia.
Qed.

Lemma save_step_refl (w : world) : save_step w w.
Proof.
  repeat split. exists []. split; [now rewrite app_nil_r|constructor].
Qed.

Lemma save_step_trans (w1 w2 w3 : world) :
  save_step w1 w2 -> save_step w2 w3 -> save_step w1 w3.
Proof.
  intros (Hd1 & (ev1 & Ht1 & He1) & Hl1) (Hd2 & (ev2 & Ht2 & He2) & Hl2).
  repeat split.
  - congruence.
  - exists (ev1 ++ ev2). split.
    + rewrite Ht2, Ht1. now rewrite app_assoc.
    + apply Forall_app. now split.
  - intros name Hne. rewrite Hl2, Hl1; auto.
Qed.

Lemma open_wb_save_step (name : string) :
  name = output_name -> respects save_step (open_wb name).
Proof.
  intros -> w. unfold open_wb.
  destruct (lookup output_name (cwd w)) as [[c|es]|]; simpl;
    try apply save_step_refl;
    (repeat split; simpl;
     [exists [Created output_name]; split; [reflexivity|now constructor]
     |intros other Hne; now apply lookup_set_entry_neq]).
Qed.

Lemma write_save_step (name : string) (bytes : list byte) :
  name = output_name -> respects save_step (write name bytes).
Proof.
  intros -> w. unfold write.
  destruct (lookup output_name (cwd w)) as [[c|es]|]; simpl;
    try apply save_step_refl.
  repeat split; simpl.
  - exists [Wrote output_name bytes]. split; [reflexivity|now constructor].
  - intros other Hne. now apply lookup_set_entry_neq.
Qed.

Lemma save_data_to_file_save_step (bo : byteorder) (records : list entry) :
  respects save_step (save_data_to_file bo records).
Proof.
  unfold save_data_to_file.
  apply (respects_bind save_step save_step_trans);
    [now apply open_wb_save_step|intros _].
  apply (respects_for_each save_step save_step_refl save_step_trans).
  intro r.
  repeat first
    [ apply (respects_bind save_step save_step_trans)
    | apply (respects_lift save_step save_step_refl)
    | now apply write_save_step
    | match goal with |- forall _, respects _ _ => intro end ].
Qed.

Lemma write_run (name : string) (bytes content : list byte) (w : world) :
  lookup name (cwd w) = Some (File content) ->
  exists w1,
    write name bytes w = (Ok tt, w1) /\
    lookup name (cwd w1) = Some (File (content ++ bytes)).
Proof.
  intro H. unfold write. rewrite H. eexists. split; [reflexivity|].
  simpl. apply lookup_set_entry_eq.
Qed.

Lemma write_loop_ok (bo : byteorder) (records : list entry) :
  forall w w' content,
    lookup output_name (cwd w) = Some (File content) ->
    for_each records (fun r =>
      azimuth_bytes <- lift (pack_f bo (azimuth r)) ;;
      elevation_bytes <- lift (pack_f bo (elevation r)) ;;
      let data_bytes := tobytes bo (data r) in
      write output_name elevation_bytes ;;
      write output_name azimuth_bytes ;;
      write output_name data_bytes) w = (Ok tt, w') ->
    exists chunks,
      Forall2 (record_bytes bo) records chunks /\
      lookup output_name (cwd w') = Some (File (content ++ List.concat chunks)).
Proof.
  induction records as [|r rest IH]; intros w w' content Hfile H.
  - inversion H; subst w'. exists []. split; [constructor|].
    simpl. now rewrite app_nil_r.
  - simpl in H. apply bind_ok in H. destruct H as ([] & w1 & Hbody & Hrest).
    apply bind_ok in Hbody. destruct Hbody as (ab & wa & Hab & Hbody).
    apply lift_ok in Hab. destruct Hab as [Hab ->].
    apply bind_ok in Hbody. destruct Hbody as (eb & wb & Heb & Hbody).
    apply lift_ok in Heb. destruct Heb as [Heb ->].
    cbv zeta in Hbody.
    destruct (write_run output_name eb content w Hfile) as (v1 & Hw1 & Hf1).
    apply bind_ok in Hbody. destruct Hbody as ([] & v1' & Hw1' & Hbody).
    rewrite Hw1 in Hw1'. inversion Hw1'; subst v1'; clear Hw1'.
    destruct (write_run output_name ab _ v1 Hf1) as (v2 & Hw2 & Hf2).
    apply bind_ok in Hbody. destruct Hbody as ([] & v2' & Hw2' & Hbody).
    rewrite Hw2 in Hw2'. inversion Hw2'; subst v2'; clear Hw2'.
    destruct (write_run output_name (tobytes bo (data r)) _ v2 Hf2)
      as (v3 & Hw3 & Hf3).
    rewrite Hw3 in Hbody. inversion Hbody; subst w1; clear Hbody.
    destruct (IH _ _ _ Hf3 Hrest) as (chunks & Hall & Hout).
    exists ((eb ++ ab ++ tobytes bo (data r)) :: chunks). split.
    + constructor; [|exact Hall].
      exists eb, ab. repeat split; eauto using pack_f_length.
    + rewrite Hout. simpl. now rewrite <- !app_assoc.
Qed.

(** A run that completes: the traversal completed, and the output file
    holds the bytes of the records of [data_arrays], one after the
    other, and nothing else. *)
Lemma main_ok (bo : byteorder) (fs : list (string * node)) (w' : world) :
  main bo (start fs) = (Ok tt, w') ->
  exists w1 chunks,
    scan (start fs) = (Ok tt, w1) /\
    data_arrays w' = data_arrays w1 /\
    Forall2 (record_bytes bo) (data_arrays w1) chunks /\
    lookup output_name (cwd w') = Some (File (List.concat chunks)).
Proof.
  unfold main. intro H.
  apply bind_ok in H. destruct H as ([] & w1 & Hscan & H).
  apply bind_ok in H. destruct H as (records & w1' & Hget & Hsave).
  unfold get_data_arrays in Hget. inversion Hget; subst records w1'; clear Hget.
  pose proof (save_data_to_file_save_step bo (data_arrays w1) w1) as Hstep.
  rewrite Hsave in Hstep. destruct Hstep as (Hd & _ & _). simpl in Hd.
  unfold save_data_to_file in Hsave.
  apply bind_ok in Hsave. destruct Hsave as ([] & w2 & Hopen & Hloop).
  assert (Hfile : lookup output_name (cwd w2) = Some (File [])).
  { unfold open_wb in Hopen.
    destruct (lookup output_name (cwd w1)) as [[c|es]|];
      inversion Hopen; subst w2; simpl; apply lookup_set_entry_eq. }
  destruct (write_loop_ok bo _ _ _ _ Hfile Hloop) as (chunks & Hall & Hout).
  exists w1, chunks. repeat split; assumption.
Qed.

(** ** The records of a completed traversal *)

Lemma Forall2_right {A B} (R : A -> B -> Prop) (P : B -> Prop)
    (l : list A) (l' : list B) :
  Forall2 R l l' ->
  (forall x y, In x l -> R x y -> P y) ->
  Forall P l'.
Proof.
  induction 1 as [|x y l l' Hxy _ IH]; intro HP; constructor.
  - apply (HP x y); [now left|exact Hxy].
  - apply IH. intros x' y' Hin. apply HP. now right.
Qed.

Lemma Forall2_length_eq {A B} (R : A -> B -> Prop) (l : list A)
    (l' : list B) :
  Forall2 R l l' -> List.length l = List.length l'.
Proof. induction 1; simpl; congruence. Qed.

Lemma unpair_length (pairs : list (entry * entry)) :
  List.length (unpair pairs) = (2 * List.length pairs)%nat.
Proof.
  unfold unpair. induction pairs as [|p pairs IH]; simpl; [reflexivity|].
  rewrite IH. lia.
Qed.

Lemma Forall_unpair (P : entry -> Prop) (pairs : list (entry * entry)) :
  Forall (fun p => P (fst p) /\ P (snd p)) pairs -> Forall P (unpair pairs).
Proof.
  unfold unpair. induction 1 as [|p pairs [H1 H2] _ IH]; simpl.
  - constructor.
  - now repeat constructor.
Qed.

Lemma pair_of_same_position (fs : list (string * node)) (job : Z * string)
    (p : entry * entry) :
  pair_of fs job p ->
  elevation (fst p) = fst job /\ elevation (snd p) = fst job /\
  azimuth (fst p) = azimuth (snd p).
Proof.
  intros (azi & az & raw_l & enc_l & raw_r & enc_r & _ & _ & _ & _ & _ & _ & ->).
  simpl. auto.
Qed.

Lemma pair_of_at_most_128 (fs : list (string * node)) (job : Z * string)
    (p : entry * entry) :
  pair_of fs job p ->
  (List.length (data (fst p)) <= 128)%nat /\
  (List.length (data (snd p)) <= 128)%nat.
Proof.
  intros (azi & az & raw_l & enc_l & raw_r & enc_r & _ & _ & _ & _ & _ & _ & ->).
  simpl. rewrite !convert_length, !window_length. lia.
Qed.

Lemma resolve_long (fs : list (string * node)) (i : Z) (name : string)
    (raw : list byte) (enc : list Z) :
  long_files fs -> In i number_range ->
  resolve fs (join (folder_of i) name) = Some (File raw) ->
  decode raw = Ok enc ->
  List.length (convert_int_to_float (window enc)) = 128%nat.
Proof.
  intros Hlong Hi Hres Hdec.
  unfold resolve, join in Hres. cbn [fst snd] in Hres.
  destruct (lookup (folder_of i) fs) as [[c|entries]|] eqn:Hdir;
    try discriminate.
  apply lookup_In in Hres.
  pose proof (Hlong i entries name raw Hi Hdir Hres) as Hlen.
  apply decode_length in Hdec.
  rewrite convert_length, window_length. lia.
Qed.

Lemma pair_of_long (fs : list (string * node)) (job : Z * string)
    (p : entry * entry) :
  long_files fs -> In (fst job) number_range -> pair_of fs job p ->
  List.length (data (fst p)) = 128%nat /\
  List.length (data (snd p)) = 128%nat.
Proof.
  intros Hlong Hi
    (azi & az & raw_l & enc_l & raw_r & enc_r & _ & _ & Hl & Hdl & Hr & Hdr & ->).
  cbn [fst snd data]. split.
  - now apply (resolve_long fs (fst job) (snd job) raw_l enc_l).
  - now apply (resolve_long fs (fst job) (Py.replace1 (snd job) "L" "R")
                            raw_r enc_r).
Qed.

Lemma jobs_elevation (fs : list (string * node)) (job : Z * string) :
  In job (filter (is_left_file fs) (jobs fs)) -> In (fst job) number_range.
Proof.
  intro H. apply filter_In in H. destruct H as [H _].
  unfold jobs in H. apply in_flat_map in H.
  destruct H as (i & Hi & H). apply in_map_iff in H.
  destruct H as (name & <- & _). exact Hi.
Qed.

(** C10: in a traversal that completes, [data_arrays] is the sequence of
    the left/right pairs of the left-channel scan roots, and the two
    records of a pair carry the same elevation, that of the directory,
    and the same azimuth, that parsed from the name of the left file. *)
Theorem C10_pair_shares_elevation_and_azimuth
    (fs : list (string * node)) (w' : world) :
  scan (start fs) = (Ok tt, w') ->
  exists pairs,
    Forall2 (pair_of fs) (filter (is_left_file fs) (jobs fs)) pairs /\
    data_arrays w' = unpair pairs /\
    Forall (fun p => elevation (fst p) = elevation (snd p) /\
                     azimuth (fst p) = azimuth (snd p)) pairs.
Proof.
  intro H. apply scan_ok in H. destruct H as (_ & pairs & Hp & Hd).
  exists pairs. repeat split; try assumption.
  apply (Forall2_right _ _ _ _ Hp). intros job p _ Hpair.
  apply pair_of_same_position in Hpair.
  destruct Hpair as (H1 & H2 & H3). split; congruence.
Qed.

Lemma C10_pair_shares_elevation_and_azimuth_witness :
  exists pairs,
    Forall2 (pair_of fs_example)
            (filter (is_left_file fs_example) (jobs fs_example)) pairs /\
    data_arrays (snd (scan (start fs_example))) = unpair pairs /\
    Forall (fun p => elevation (fst p) = elevation (snd p) /\
                     azimuth (fst p) = azimuth (snd p)) pairs.
Proof.
  apply (C10_pair_shares_elevation_and_azimuth fs_example).
  vm_compute. reflexivity.
Defined.

Lemma completed_run_sample_counts
    (bo : byteorder) (fs : list (string * node)) (w' : world) :
  main bo (start fs) = (Ok tt, w') ->
  Forall (fun r => (List.length (data r) <= 128)%nat) (data_arrays w') /\
  (long_files fs ->
   Forall (fun r => List.length (data r) = 128%nat) (data_arrays w')).
Proof.
  intro H. apply main_ok in H.
  destruct H as (w1 & chunks & Hscan & Hd & _ & _).
  apply scan_ok in Hscan. destruct Hscan as (_ & pairs & Hp & Hd1).
  rewrite Hd, Hd1. split.
  - apply Forall_unpair. apply (Forall2_right _ _ _ _ Hp).
    intros job p _. apply pair_of_at_most_128.
  - intro Hlong. apply Forall_unpair. apply (Forall2_right _ _ _ _ Hp).
    intros job p Hin. apply pair_of_long; [exact Hlong|].
    now apply jobs_elevation in Hin.
Qed.

(** C5, as the script has it: in a run that completes, every record has
    at most 128 samples, and exactly 128 when every regular file of the
    elevation directories holds at least 168 samples (336 bytes). *)
Theorem C5_records_have_at_most_128_samples
    (bo : byteorder) (fs : list (string * node)) (w' : world) :
  main bo (start fs) = (Ok tt, w') ->
  Forall (fun r => (List.length (data r) <= 128)%nat) (data_arrays w') /\
  (long_files fs ->
   Forall (fun r => List.length (data r) = 128%nat) (data_arrays w')).
Proof. apply completed_run_sample_counts. Qed.

Lemma fs_example_long : long_files fs_example.
Proof.
  intros i entries name content Hi Hdir Hin.
  vm_compute in Hi.
  repeat (destruct Hi as [<-|Hi]; [vm_compute in Hdir|]);
    try contradiction;
    inversion Hdir; subst entries; clear Hdir;
    repeat (destruct Hin as [Hin|Hin]; [inversion Hin; subst|]);
    try contradiction; simpl; lia.
Qed.

Lemma C5_records_have_at_most_128_samples_witness :
  Forall (fun r => (List.length (data r) <= 128)%nat)
         (data_arrays (snd (main little (start fs_example)))) /\
  Forall (fun r => List.length (data r) = 128%nat)
         (data_arrays (snd (main little (start fs_example)))).
Proof.
  destruct (C5_records_have_at_most_128_samples little fs_example
              (snd (main little (start fs_example)))) as [Hmost Hlong].
  - vm_compute. reflexivity.
  - split; [exact Hmost|]. apply Hlong. exact fs_example_long.
Defined.

(** C5, as the specification words it, fails: the run over [fs_short]
    completes and its two records have 0 and 10 samples. *)
Lemma C5_short_files_give_short_records :
  exists w',
    main little (start fs_short) = (Ok tt, w') /\
    map (fun r => List.length (data r)) (data_arrays w') = [0; 10]%nat.
Proof. eexists. split; vm_compute; reflexivity. Qed.

(** ** The archive *)

Lemma record_bytes_length (bo : byteorder) (r : entry) (chunk : list byte) :
  record_bytes bo r chunk ->
  List.length chunk = (8 + 4 * List.length (data r))%nat.
Proof.
  intros (eb & ab & _ & _ & He & Ha & ->).
  rewrite !length_app, He, Ha, tobytes_length. lia.
Qed.

Lemma concat_length_uniform {A} (n : nat) (chunks : list (list A)) :
  Forall (fun c => List.length c = n) chunks ->
  List.length (List.concat chunks) = (n * List.length chunks)%nat.
Proof.
  induction 1 as [|c chunks Hc _ IH]; simpl; [lia|].
  rewrite length_app, Hc, IH. lia.
Qed.

Lemma Forall2_Forall_both {A B} (R : A -> B -> Prop) (P : A -> Prop)
    (Q : B -> Prop) (l : list A) (l' : list B) :
  Forall2 R l l' -> Forall P l ->
  (forall x y, R x y -> P x -> Q y) ->
  Forall Q l'.
Proof.
  induction 1 as [|x y l l' Hxy _ IH]; intros HP HQ; constructor.
  - inversion HP; subst. eauto.
  - inversion HP; subst. now apply IH.
Qed.

(** C8, as the script has it: after a run that completes the output file
    is the concatenation of one chunk per record, nothing before, between
    or after; a chunk is the 4 bytes of the elevation, the 4 bytes of the
    azimuth and 4 bytes per sample; there are twice as many records as
    left-channel scan roots; and when every regular file of the elevation
    directories holds at least 168 samples, every chunk has 520 bytes and
    the file 520 times the number of records. *)
Theorem C8_archive_layout
    (bo : byteorder) (fs : list (string * node)) (w' : world) :
  main bo (start fs) = (Ok tt, w') ->
  exists chunks,
    lookup output_name (cwd w') = Some (File (List.concat chunks)) /\
    Forall2 (record_bytes bo) (data_arrays w') chunks /\
    Forall2 (fun r chunk =>
               List.length chunk = (8 + 4 * List.length (data r))%nat)
            (data_arrays w') chunks /\
    List.length (data_arrays w') = (2 * left_count fs)%nat /\
    (long_files fs ->
     Forall (fun chunk => List.length chunk = 520%nat) chunks /\
     List.length (List.concat chunks)
       = (520 * List.length (data_arrays w'))%nat).
Proof.
  intro H.
  destruct (completed_run_sample_counts bo fs w' H) as (Hmost & Hlong).
  apply main_ok in H.
  destruct H as (w1 & chunks & Hscan & Hd & Hall & Hout).
  apply scan_ok in Hscan. destruct Hscan as (_ & pairs & Hp & Hd1).
  rewrite <- Hd in Hall.
  exists chunks. split; [exact Hout|]. split; [exact Hall|].
  split; [|split].
  - eapply Forall2_impl; [|exact Hall].
    intros r chunk. apply record_bytes_length.
  - rewrite Hd, Hd1, unpair_length. unfold left_count.
    now rewrite (Forall2_length_eq _ _ _ Hp).
  - intro Hfs. specialize (Hlong Hfs).
    assert (H520 : Forall (fun chunk => List.length chunk = 520%nat) chunks).
    { apply (Forall2_Forall_both _ _ _ _ _ Hall Hlong).
      intros r chunk Hr Hlen. apply record_bytes_length in Hr. lia. }
    split; [exact H520|].
    rewrite (concat_length_uniform 520 chunks H520).
    now rewrite (Forall2_length_eq _ _ _ Hall).
Qed.

Lemma C8_archive_layout_witness :
  exists chunks,
    lookup output_name (cwd (snd (main big (start fs_example))))
      = Some (File (List.concat chunks)) /\
    Forall2 (record_bytes big)
            (data_arrays (snd (main big (start fs_example)))) chunks /\
    Forall (fun chunk => List.length chunk = 520%nat) chunks /\
    List.length (List.concat chunks) = 1040%nat /\
    left_count fs_example = 1%nat.
Proof.
  destruct (C8_archive_layout big fs_example
              (snd (main big (start fs_example))))
    as (chunks & Hout & Hall & _ & Hcount & Hlong).
  - vm_compute. reflexivity.
  - destruct (Hlong fs_example_long) as [H520 Hsize].
    exists chunks.
    split; [exact Hout|]. split; [exact Hall|]. split; [exact H520|].
    split; [|vm_compute; reflexivity].
    rewrite Hsize. vm_compute. reflexivity.
Defined.

(** C8, as the specification words it, fails: the run over [fs_short]
    completes with two records and leaves an output file of 56 bytes,
    which is neither 2 * 520 nor any multiple of 520. *)
Lemma C8_short_files_give_short_archive :
  exists w' content,
    main little (start fs_short) = (Ok tt, w') /\
    lookup output_name (cwd w') = Some (File content) /\
    List.length (data_arrays w') = 2%nat /\
    List.length content = 56%nat /\
    (56 mod 520 <> 0)%nat.
Proof.
  eexists. eexists.
  split; [vm_compute; reflexivity|].
  split; [vm_compute; reflexivity|].
  split; [reflexivity|]. split; [reflexivity|].
  vm_compute. discriminate.
Qed.

(** ** Failures *)

Lemma scan_leaves_files (w : world) :
  cwd (snd (scan w)) = cwd w /\
  exists evs,
    trace (snd (scan w)) = trace w ++ evs /\ Forall is_scan_event evs.
Proof.
  destruct (scan_scan_step w) as (Hcwd & Hevs & _). now split.
Qed.

(** C9: when the traversal raises, whatever the exception, the run ends
    there with the same exception: the files are those it started with
    (no output file has been created) and nothing but listings, reads
    and prints has happened. *)
Theorem C9_no_output_when_traversal_fails
    (bo : byteorder) (fs : list (string * node)) (e : exn) (w1 : world) :
  scan (start fs) = (Raise e, w1) ->
  main bo (start fs) = (Raise e, w1) /\
  cwd w1 = fs /\
  Forall is_scan_event (trace w1).
Proof.
  intro H. split; [|split].
  - unfold main. now apply bind_raise_first.
  - pose proof (scan_leaves_files (start fs)) as [Hcwd _].
    now rewrite H in Hcwd.
  - pose proof (scan_leaves_files (start fs)) as (_ & evs & Hevs & Hall).
    rewrite H in Hevs. simpl in Hevs. now rewrite Hevs.
Qed.

Lemma C9_no_output_when_traversal_fails_witness :
  main little (start fs_unpaired)
    = (Raise FileNotFoundError, snd (scan (start fs_unpaired))) /\
  cwd (snd (scan (start fs_unpaired))) = fs_unpaired /\
  Forall is_scan_event (trace (snd (scan (start fs_unpaired)))).
Proof.
  apply (C9_no_output_when_traversal_fails little fs_unpaired).
  vm_compute. reflexivity.
Defined.

(** The three failures the specification names, run. *)
Example missing_directory_fails :
  main little (start []) = (Raise FileNotFoundError, start []).
Proof. reflexivity. Qed.

Example malformed_name_fails :
  fst (main little (start fs_notes)) = Raise IndexError /\
  lookup output_name (cwd (snd (main little (start fs_notes)))) = None.
Proof. split; vm_compute; reflexivity. Qed.

Example missing_counterpart_fails :
  fst (main little (start fs_unpaired)) = Raise FileNotFoundError /\
  lookup output_name (cwd (snd (main little (start fs_unpaired)))) = None.
Proof. split; vm_compute; reflexivity. Qed.

(** X20: every write event of a run comes after every scan event, and there
    is one only if the traversal has completed. *)
Lemma writes_follow_the_traversal
    (bo : byteorder) (fs : list (string * node)) :
  exists scans writes,
    trace (snd (main bo (start fs))) = scans ++ writes /\
    Forall is_scan_event scans /\ Forall is_write_event writes /\
    (writes <> [] -> fst (scan (start fs)) = Ok tt).
Proof.
  pose proof (scan_leaves_files (start fs)) as (_ & scans & Hscans & Hall).
  simpl in Hscans.
  unfold main, bind.
  destruct (scan (start fs)) as [[[]|e] w1] eqn:Hscan; simpl in *.
  - unfold get_data_arrays.
    pose proof (save_data_to_file_save_step bo (data_arrays w1) w1)
      as (_ & (writes & Hwrites & Hw) & _).
    destruct (save_data_to_file bo (data_arrays w1) w1) as [r w2].
    simpl in *. exists scans, writes. rewrite Hwrites, Hscans.
    repeat split; auto.
  - exists scans, []. rewrite app_nil_r.
    repeat split; auto. intro Hne. now elim Hne.
Qed.

(** A failure of the write phase is another matter: an azimuth too
    large for a float32 stops the run with the records written so far
    left in the output file. *)
Example overflow_leaves_partial_archive :
  fst (main little (start fs_overflow)) = Raise OverflowError /\
  exists content,
    lookup output_name (cwd (snd (main little (start fs_overflow))))
      = Some (File content) /\
    List.length content = 16%nat.
Proof.
  split; [vm_compute; reflexivity|].
  eexists. split; [vm_compute; reflexivity|reflexivity].
Qed.

(** ** Channels *)

(** C3, as the script has it: a regular file whose name does not start
    with 'L' is opened and read like any other scan root (the channel
    test comes after the read, the name parse and the decode), but the
    pass over it appends no record, whether it completes or raises. *)
Theorem C3_other_files_read_but_not_emitted
    (i : Z) (folder_path filename : string) (w : world)
    (raw_data : list byte) :
  Py.startswith filename "L" = false ->
  resolve (cwd w) (join folder_path filename) = Some (File raw_data) ->
  let w' := snd (scan_entry i folder_path filename w) in
  data_arrays w' = data_arrays w /\
  cwd w' = cwd w /\
  trace w' = trace w ++ [Read (join folder_path filename)].
Proof.
  intros HL Hfile. cbv zeta. rewrite scan_entry_run, Hfile, HL. cbv zeta.
  destruct (find_azi filename) as [azi|e];
    [|destruct (decode raw_data); now repeat split].
  destruct (decode raw_data) as [enc|e]; [|now repeat split].
  destruct (Py.int azi) as [az|e]; now repeat split.
Qed.

Lemma C3_other_files_read_but_not_emitted_witness :
  let w' := snd (scan_entry (-40) "elev-40" "R-40e000a.dat"
                            (start fs_right_only)) in
  data_arrays w' = data_arrays (start fs_right_only) /\
  cwd w' = cwd (start fs_right_only) /\
  trace w' = trace (start fs_right_only)
             ++ [Read (join "elev-40" "R-40e000a.dat")].
Proof.
  apply (C3_other_files_read_but_not_emitted
           (-40) "elev-40" "R-40e000a.dat" (start fs_right_only) [x01]);
    vm_compute; reflexivity.
Defined.

(** C3, as the specification words it, fails: in [fs_right_only] a
    right-channel file without any left-channel file is read and
    decoded as a scan root; its single byte stops the run with the
    decoder's exception. *)
Lemma C3_right_file_read_as_scan_root :
  Py.startswith "R-40e000a.dat" "L" = false /\
  filter (is_left_file fs_right_only) (jobs fs_right_only) = [] /\
  exists w',
    main little (start fs_right_only) = (Raise StructError, w') /\
    In (Read (join "elev-40" "R-40e000a.dat")) (trace w').
Proof.
  split; [reflexivity|]. split; [vm_compute; reflexivity|].
  eexists. split; [vm_compute; reflexivity|].
  right. left. reflexivity.
Qed.

Lemma startswith_inv (s : string) (c : ascii) :
  Py.startswith s c = true -> exists rest, s = String c rest.
Proof.
  destruct s as [|c0 rest]; simpl; [discriminate|].
  intro H. apply Ascii.eqb_eq in H. subst c0. now exists rest.
Qed.

(** C7: once the pass over a left-channel file has read, parsed and
    decoded it, the counterpart is looked up in the same directory under
    the name with its first 'L', the leading one, turned into 'R'; if no
    such entry exists the pass raises [FileNotFoundError]; and if the
    pass completes it has appended exactly the left record and then the
    right record, decoded from that counterpart. *)
Theorem C7_right_record_follows_left
    (i : Z) (folder_path filename : string) (w : world)
    (raw_data : list byte) (encoded_data : list Z) (azi : string) (az : Z) :
  Py.startswith filename "L" = true ->
  resolve (cwd w) (join folder_path filename) = Some (File raw_data) ->
  find_azi filename = Ok azi ->
  decode raw_data = Ok encoded_data ->
  Py.int azi = Ok az ->
  let right_path := join folder_path (Py.replace1 filename "L" "R") in
  let left := mk_entry i az (convert_int_to_float (window encoded_data)) in
  (exists rest,
     filename = String "L" rest /\ right_path = (folder_path, String "R" rest)) /\
  (resolve (cwd w) right_path = None ->
   fst (scan_entry i folder_path filename w) = Raise FileNotFoundError) /\
  (forall w',
     scan_entry i folder_path filename w = (Ok tt, w') ->
     exists raw_right encoded_right,
       resolve (cwd w) right_path = Some (File raw_right) /\
       decode raw_right = Ok encoded_right /\
       data_arrays w' =
         data_arrays w ++
           [left;
            mk_entry i az (convert_int_to_float (window encoded_right))]).
Proof.
  intros HL Hfile Hazi Hdec Hint. cbv zeta.
  split; [|split].
  - destruct (startswith_inv _ _ HL) as [rest ->]. now exists rest.
  - intro Hnone.
    rewrite scan_entry_run, Hfile, Hazi, Hdec, Hint, HL. cbv zeta.
    now rewrite Hnone.
  - intro w'.
    rewrite scan_entry_run, Hfile, Hazi, Hdec, Hint, HL. cbv zeta.
    destruct (resolve (cwd w)
                (join folder_path (Py.replace1 filename "L" "R")))
      as [[raw_r|es]|]; try discriminate.
    destruct (decode raw_r) as [enc_r|e] eqn:Hdr; [|discriminate].
    intro H. inversion H; subst w'; clear H.
    exists raw_r, enc_r. now repeat split.
Qed.

Lemma C7_right_record_follows_left_witness :
  (exists rest,
     "L40e090a.dat"%string = String "L" rest /\
     join "elev40" (Py.replace1 "L40e090a.dat" "L" "R")
       = ("elev40"%string, String "R" rest)) /\
  data_arrays (snd (scan_entry 40 "elev40" "L40e090a.dat" (start fs_short)))
  = [mk_entry 40 90 [];
     mk_entry 40 90 (convert_int_to_float (repeat 257 10))].
Proof.
  destruct (C7_right_record_follows_left
              40 "elev40" "L40e090a.dat" (start fs_short)
              [x00; x01; x00; x02] [1; 2] "090" 90)
    as (Hname & _ & Hok); try (vm_compute; reflexivity).
  split; [exact Hname|].
  destruct (Hok (snd (scan_entry 40 "elev40" "L40e090a.dat" (start fs_short))))
    as (raw_right & encoded_right & Hres & Hdec & Hd).
  - vm_compute. reflexivity.
  - vm_compute in Hres. inversion Hres; subst raw_right; clear Hres.
    vm_compute in Hdec. inversion Hdec; subst encoded_right; clear Hdec.
    rewrite Hd. reflexivity.
Defined.



(** ** The example of the specification *)

Lemma byte_val_range (b : byte) : 0 <= byte_val b < 256.
Proof.
  unfold byte_val. pose proof (Byte.to_N_bounded b) as H. lia.
Qed.

Lemma lor_below_pow2 (a b n : Z) :
  0 <= a < 2 ^ n -> 0 <= b < 2 ^ n -> 0 <= n -> 0 <= Z.lor a b < 2 ^ n.
Proof.
  intros Ha Hb Hn. split; [apply Z.lor_nonneg; lia|].
  destruct (Z.eq_dec n 0) as [->|Hn0].
  { change (2 ^ 0) with 1 in *.
    replace a with 0 by lia. replace b with 0 by lia. simpl. lia. }
  destruct (Z.eq_dec (Z.lor a b) 0) as [->|Hnz]; [lia|].
  assert (Hpos : 0 < Z.lor a b).
  { assert (0 <= Z.lor a b) by (apply Z.lor_nonneg; lia). lia. }
  apply Z.log2_lt_pow2; [exact Hpos|].
  rewrite Z.log2_lor by lia.
  apply Z.max_lub_lt.
  - destruct (Z.eq_dec a 0) as [->|Ha0]; [simpl; lia|].
    apply Z.log2_lt_pow2; lia.
  - destruct (Z.eq_dec b 0) as [->|Hb0]; [simpl; lia|].
    apply Z.log2_lt_pow2; lia.
Qed.

Lemma unpack_be_h_int16 (chunk : list byte) (sample : Z) :
  unpack_be_h chunk = Ok sample -> is_int16 sample.
Proof.
  destruct chunk as [|hi [|lo [|x rest]]]; try discriminate.
  unfold unpack_be_h. intro H.
  assert (Hs : sample
               = signed16 (Z.lor (Z.shiftl (byte_val hi) 8) (byte_val lo)))
    by congruence.
  clear H. subst sample.
  pose proof (byte_val_range hi) as Hhi.
  pose proof (byte_val_range lo) as Hlo.
  assert (Hword : 0 <= Z.lor (Z.shiftl (byte_val hi) 8) (byte_val lo) < 2 ^ 16).
  { apply lor_below_pow2; [|lia|lia].
    rewrite Z.shiftl_mul_pow2 by lia. lia. }
  change (2 ^ 16) with 65536 in Hword.
  unfold signed16, is_int16.
  remember (Z.lor (Z.shiftl (byte_val hi) 8) (byte_val lo)) as u.
  destruct (Z.ltb_spec u 32768); lia.
Qed.

Lemma decode_pairs_int16 (raw : list byte) :
  forall samples, decode_pairs raw = Ok samples -> Forall is_int16 samples.
Proof.
  induction raw as [|b|hi lo rest IH] using list_pair_ind; intros samples H.
  - inversion H. constructor.
  - discriminate.
  - cbn [decode_pairs] in H.
    destruct (unpack_be_h [hi; lo]) as [sample|e] eqn:Hs; [|discriminate].
    destruct (decode_pairs rest) as [t|e]; [|discriminate].
    inversion H; subst samples; clear H.
    constructor; [now apply unpack_be_h_int16 in Hs|now apply IH].
Qed.

Lemma decode_int16 (raw : list byte) (samples : list Z) :
  decode raw = Ok samples -> Forall is_int16 samples.
Proof. rewrite decode_is_pairs. apply decode_pairs_int16. Qed.

Lemma Forall_slice {A} (P : A -> Prop) (l : list A) (a b : nat) :
  Forall P l -> Forall P (Py.slice l a b).
Proof.
  intro H. unfold Py.slice.
  rewrite <- (firstn_skipn a l) in H. apply Forall_app in H.
  destruct H as [_ H].
  rewrite <- (firstn_skipn (b - a) (skipn a l)) in H. apply Forall_app in H.
  now destruct H as [H _].
Qed.

(** C1, as the script has it: the pass over a left-channel file
    [Le40a90.bin] of 400 bytes in the directory of elevation 40 decodes
    200 samples and first appends the record of elevation 40, of azimuth
    40 (the text between the first 'e' of the name and the next 'a') and
    of the 128 samples of indices 40 to 167, each divided by 32767 in
    float32; both numbers are written as the float32 40.0, of bit
    pattern 0x42200000. *)
Theorem C1_example_record
    (bo : byteorder) (w : world) (raw_data : list byte) :
  resolve (cwd w) (join (folder_of 40) "Le40a90.bin") = Some (File raw_data) ->
  List.length raw_data = 400%nat ->
  exists samples rest,
    decode raw_data = Ok samples /\
    List.length samples = 200%nat /\
    data_arrays (snd (scan_entry 40 (folder_of 40) "Le40a90.bin" w))
      = data_arrays w ++
          mk_entry 40 40 (convert_int_to_float (Py.slice samples 40 168))
          :: rest /\
    List.length (Py.slice samples 40 168) = 128%nat /\
    Forall2 normalized (Py.slice samples 40 168)
            (convert_int_to_float (Py.slice samples 40 168)) /\
    pack_f bo 40 = Ok (bytes4 bo 1109393408) /\
    exists q, f32_to_Q (f32_of_Z 40) = Some q /\ (q == inject_Z 40)%Q.
Proof.
  intros Hfile Hlen.
  destruct (decode_pairs_even raw_data) as [samples Hdec].
  { now rewrite Hlen. }
  rewrite <- decode_is_pairs in Hdec.
  pose proof (decode_length _ _ Hdec) as Hn. rewrite Hlen in Hn.
  assert (Hwin : List.length (Py.slice samples 40 168) = 128%nat).
  { unfold Py.slice. rewrite length_firstn, length_skipn. lia. }
  assert (Hrun : exists rest,
             data_arrays (snd (scan_entry 40 (folder_of 40) "Le40a90.bin" w))
             = data_arrays w ++
                 mk_entry 40 40 (convert_int_to_float (Py.slice samples 40 168))
                 :: rest).
  { rewrite scan_entry_run, Hfile, Hdec.
    change (find_azi "Le40a90.bin") with (@Ok string "40"%string).
    change (Py.int "40"%string) with (Ok 40).
    change (Py.startswith "Le40a90.bin" "L") with true.
    cbv zeta.
    destruct (resolve (cwd w)
                (join (folder_of 40) (Py.replace1 "Le40a90.bin" "L" "R")))
      as [[raw_r|es]|].
    - destruct (decode raw_r) as [enc_r|e]; simpl.
      + eexists. reflexivity.
      + now exists [].
    - now exists [].
    - now exists []. }
  destruct Hrun as [rest Hrun].
  exists samples, rest.
  split; [exact Hdec|]. split; [lia|]. split; [exact Hrun|].
  split; [exact Hwin|]. split.
  - apply normalized_samples, Forall_slice. now apply decode_int16 in Hdec.
  - split; [now destruct bo|].
    eexists. split; reflexivity.
Qed.

Lemma C1_example_record_witness :
  exists samples rest,
    decode ramp200 = Ok samples /\
    List.length samples = 200%nat /\
    data_arrays (snd (scan_entry 40 (folder_of 40) "Le40a90.bin"
                                 (start fs_example)))
      = data_arrays (start fs_example) ++
          mk_entry 40 40 (convert_int_to_float (Py.slice samples 40 168))
          :: rest /\
    List.length (Py.slice samples 40 168) = 128%nat /\
    Forall2 normalized (Py.slice samples 40 168)
            (convert_int_to_float (Py.slice samples 40 168)) /\
    pack_f little 40 = Ok (bytes4 little 1109393408) /\
    exists q, f32_to_Q (f32_of_Z 40) = Some q /\ (q == inject_Z 40)%Q.
Proof.
  apply (C1_example_record little (start fs_example) ramp200).
  - vm_compute. reflexivity.
  - vm_compute. reflexivity.
Defined.

(** C1, as the specification words it, fails: the run over [fs_example]
    completes and the azimuth of the records of [Le40a90.bin] is 40, not
    90; the name holds "40" between its first 'e' and the next 'a'. *)
Lemma C1_azimuth_is_40_not_90 :
  find_azi "Le40a90.bin" = Ok "40"%string /\
  exists w',
    main little (start fs_example) = (Ok tt, w') /\
    map (fun r => (elevation r, azimuth r)) (data_arrays w')
      = [(40, 40); (40, 40)] /\
    ~ exists r, In r (data_arrays w') /\ azimuth r = 90.
Proof.
  split; [reflexivity|].
  eexists. split; [vm_compute; reflexivity|].
  split; [reflexivity|].
  intros (r & [<-|[<-|[]]] & Haz); discriminate Haz.
Qed.

(** * Further properties *)

(** ** The decode loop and big-endian encoding *)

Lemma pack_round_trip_int16 :
  forallb pack_round_trip_check int16_values = true.
Proof. vm_cast_no_check (eq_refl true). Qed.

Lemma unpack_pack (s : Z) :
  is_int16 s -> unpack_be_h (pack_be_h s) = Ok s.
Proof.
  intro Hs.
  pose proof pack_round_trip_int16 as Hall.
  rewrite forallb_forall in Hall.
  assert (Hin : In s int16_values).
  { apply in_count_up. unfold is_int16 in Hs. lia. }
  specialize (Hall s Hin). unfold pack_round_trip_check in Hall.
  destruct (unpack_be_h (pack_be_h s)) as [s'|e]; [|discriminate].
  apply Z.eqb_eq in Hall. now subst s'.
Qed.

Lemma decode_pairs_encode (samples : list Z) :
  Forall is_int16 samples -> decode_pairs (encode samples) = Ok samples.
Proof.
  induction 1 as [|s rest Hs _ IH]; [reflexivity|].
  change (encode (s :: rest))
    with (byte_of_Z (Z.shiftr s 8) :: byte_of_Z s :: encode rest).
  cbn [decode_pairs].
  change [byte_of_Z (Z.shiftr s 8); byte_of_Z s] with (pack_be_h s).
  rewrite (unpack_pack s Hs), IH. reflexivity.
Qed.

(** X1: decoding the big-endian bytes of signed 16-bit samples gives the
    samples back, in order. *)
Theorem decode_encode (samples : list Z) :
  Forall is_int16 samples -> decode (encode samples) = Ok samples.
Proof. intro H. rewrite decode_is_pairs. now apply decode_pairs_encode. Qed.

Lemma decode_encode_witness :
  decode (encode [0; 1; -1; 32767; -32768]) = Ok [0; 1; -1; 32767; -32768].
Proof.
  apply decode_encode. repeat constructor; unfold is_int16; lia.
Defined.

(** X3: the decode loop returns exactly on the buffers of even length, and
    then one sample per two bytes, each a signed 16-bit integer. *)
Theorem decode_succeeds_iff_even_length (raw_data : list byte) :
  (Nat.even (List.length raw_data) = true <->
   exists samples, decode raw_data = Ok samples) /\
  (forall samples,
     decode raw_data = Ok samples ->
     List.length raw_data = (2 * List.length samples)%nat /\
     Forall is_int16 samples).
Proof.
  split; [split|].
  - intro Heven. rewrite decode_is_pairs. now apply decode_pairs_even.
  - intros [samples H]. apply decode_length in H. rewrite H.
    apply Nat.even_spec. now exists (List.length samples).
  - intros samples H. split; [now apply decode_length|].
    now apply decode_int16 in H.
Qed.

Lemma decode_pairs_app (a : list byte) :
  forall b,
    Nat.even (List.length a) = true ->
    decode_pairs (a ++ b)
    = rbind (decode_pairs a)
            (fun x => rbind (decode_pairs b) (fun y => Ok (x ++ y))).
Proof.
  induction a as [|c|hi lo rest IH] using list_pair_ind; intros b Heven.
  - simpl. now destruct (decode_pairs b).
  - discriminate.
  - change ((hi :: lo :: rest) ++ b) with (hi :: lo :: (rest ++ b)).
    cbn [decode_pairs]. rewrite (IH b Heven).
    destruct (unpack_be_h [hi; lo]) as [s|e]; [|reflexivity].
    destruct (decode_pairs rest) as [x|e]; simpl; [|reflexivity].
    now destruct (decode_pairs b).
Qed.

(** X4: a buffer made of a part of even length and a second part decodes to
    the samples of the first followed by the samples of the second; an
    exception of either part is the exception of the whole. *)
Theorem decode_app (a b : list byte) :
  Nat.even (List.length a) = true ->
  decode (a ++ b)
  = rbind (decode a) (fun x => rbind (decode b) (fun y => Ok (x ++ y))).
Proof. intro H. rewrite !decode_is_pairs. now apply decode_pairs_app. Qed.

Lemma decode_app_witness :
  decode ([x00; x01] ++ [xff; xfe; x7f])
  = rbind (decode [x00; x01])
          (fun x => rbind (decode [xff; xfe; x7f]) (fun y => Ok (x ++ y))).
Proof. apply decode_app. reflexivity. Defined.

Lemma byte_of_val (b : byte) : byte_of_Z (byte_val b) = b.
Proof.
  pose proof (byte_val_range b) as Hb.
  unfold byte_of_Z.
  change 255 with (Z.ones 8). rewrite Z.land_ones by lia.
  rewrite Z.mod_small by (change (2 ^ 8) with 256; lia).
  unfold byte_val. rewrite N2Z.id, Byte.of_to_N. reflexivity.
Qed.

Lemma unpack_round_trip_bytes :
  forallb (fun h => forallb (unpack_round_trip_check h) byte_values)
          byte_values = true.
Proof. vm_cast_no_check (eq_refl true). Qed.

Lemma pack_unpack (hi lo : byte) (s : Z) :
  unpack_be_h [hi; lo] = Ok s -> pack_be_h s = [hi; lo].
Proof.
  intro H.
  pose proof unpack_round_trip_bytes as Hall.
  rewrite forallb_forall in Hall.
  pose proof (byte_val_range hi) as Hhi.
  pose proof (byte_val_range lo) as Hlo.
  assert (Hh : In (byte_val hi) byte_values) by (apply in_count_up; simpl; lia).
  assert (Hl : In (byte_val lo) byte_values) by (apply in_count_up; simpl; lia).
  specialize (Hall _ Hh). rewrite forallb_forall in Hall.
  specialize (Hall _ Hl). unfold unpack_round_trip_check in Hall.
  rewrite !byte_of_val, H in Hall.
  destruct (pack_be_h s) as [|b1 [|b2 [|b3 rest]]]; try discriminate.
  apply andb_true_iff in Hall. destruct Hall as [H1 H2].
  apply Byte.byte_dec_bl in H1. apply Byte.byte_dec_bl in H2. congruence.
Qed.

Lemma encode_decode_pairs (raw : list byte) :
  forall samples, decode_pairs raw = Ok samples -> encode samples = raw.
Proof.
  induction raw as [|b|hi lo rest IH] using list_pair_ind; intros samples H.
  - inversion H. reflexivity.
  - discriminate.
  - cbn [decode_pairs] in H.
    destruct (unpack_be_h [hi; lo]) as [s|e] eqn:Hs; [|discriminate].
    destruct (decode_pairs rest) as [t|e]; [|discriminate].
    inversion H; subst samples; clear H.
    change (encode (s :: t)) with (pack_be_h s ++ encode t).
    rewrite (pack_unpack hi lo s Hs), (IH t eq_refl). reflexivity.
Qed.

(** X2: what the decode loop returns determines the buffer: encoding the
    decoded samples big-endian gives the bytes back, so no two files
    decode to the same samples. *)
Theorem encode_decode (raw_data : list byte) (samples : list Z) :
  decode raw_data = Ok samples -> encode samples = raw_data.
Proof. rewrite decode_is_pairs. apply encode_decode_pairs. Qed.

Lemma encode_decode_witness : encode [1; -2] = [x00; x01; xff; xfe].
Proof. apply encode_decode. reflexivity. Defined.

(** ** The window and the normalization *)

(** X5: the value of index [k] of a record is the normalization of the
    sample of index [40 + k] of the file, for every [k] below 128 that
    the file reaches; the record has nothing else. *)
Theorem record_value_index (encoded_data : list Z) (k : nat) :
  nth_error (convert_int_to_float (window encoded_data)) k
  = if (k <? 128)%nat
    then option_map normalize (nth_error encoded_data (40 + k))
    else None.
Proof.
  unfold convert_int_to_float, window, Py.slice, sample_size.
  rewrite nth_error_map.
  replace (128 + 40 - 40)%nat with 128%nat by lia.
  rewrite nth_error_firstn, nth_error_skipn.
  now destruct (k <? 128)%nat.
Qed.

Lemma normalized_near (s : Z) (x : float32) :
  is_int16 s -> normalized s x ->
  exists q : Q,
    f32_to_Q x = Some q /\
    (inject_Z s - (1 # 512) <= q * inject_Z 32767)%Q /\
    (q * inject_Z 32767 <= inject_Z s + (1 # 512))%Q.
Proof.
  intros Hs (q & Hq & Hnear & _). exists q. split; [exact Hq|].
  assert (Habs : (Qabs (inject_Z s) <= inject_Z 32768)%Q).
  { apply Qabs_Qle_condition. unfold is_int16 in Hs. split.
    - change (- inject_Z 32768)%Q with (inject_Z (-32768)).
      rewrite <- Zle_Qle. lia.
    - rewrite <- Zle_Qle. lia. }
  change (inject_Z (2 ^ 24)) with (16777216 # 1)%Q in Hnear.
  change (inject_Z 32768) with (32768 # 1)%Q in Habs.
  assert (Hd : (Qabs (q * inject_Z 32767 - inject_Z s) <= 1 # 512)%Q).
  { remember (Qabs (q * inject_Z 32767 - inject_Z s)) as d.
    remember (Qabs (inject_Z s)) as a. lra. }
  apply Qabs_Qle_condition in Hd. destruct Hd as [Hlo Hhi].
  remember (q * inject_Z 32767)%Q as y. remember (inject_Z s) as z.
  split; lra.
Qed.

(** X6: normalization is strictly increasing on the signed 16-bit samples:
    a larger sample gives a larger float32, so that distinct samples
    never become the same value. *)
Theorem normalize_strictly_increasing (s t : Z) :
  is_int16 s -> is_int16 t -> s < t ->
  exists qs qt : Q,
    f32_to_Q (normalize s) = Some qs /\
    f32_to_Q (normalize t) = Some qt /\
    (qs < qt)%Q.
Proof.
  intros Hs Ht Hlt.
  destruct (normalized_near s _ Hs (normalize_int16 s Hs))
    as (qs & Hqs & _ & Hs_hi).
  destruct (normalized_near t _ Ht (normalize_int16 t Ht))
    as (qt & Hqt & Ht_lo & _).
  exists qs, qt. split; [exact Hqs|]. split; [exact Hqt|].
  assert (Hstep : (inject_Z s + 1 <= inject_Z t)%Q).
  { change 1%Q with (inject_Z 1). rewrite <- inject_Z_plus, <- Zle_Qle. lia. }
  change (inject_Z 32767) with (32767 # 1)%Q in *.
  remember (inject_Z s) as zs. remember (inject_Z t) as zt.
  lra.
Qed.

Lemma normalize_strictly_increasing_witness :
  exists qs qt : Q,
    f32_to_Q (normalize (-32768)) = Some qs /\
    f32_to_Q (normalize (-32767)) = Some qt /\
    (qs < qt)%Q.
Proof.
  apply normalize_strictly_increasing; unfold is_int16; lia.
Defined.

(** X7: full scale, and only full scale, becomes exactly 1.0 or -1.0: among
    the signed 16-bit samples the value of [normalize s] is 1 only for
    [s = 32767] and -1 only for [s = -32767]. *)
Theorem normalize_full_scale (s : Z) (q : Q) :
  is_int16 s ->
  f32_to_Q (normalize s) = Some q ->
  ((q == inject_Z 1)%Q <-> s = 32767) /\
  ((q == inject_Z (-1))%Q <-> s = -32767).
Proof.
  intros Hs Hq.
  assert (Hcmp : forall t qt v,
            is_int16 t -> f32_to_Q (normalize t) = Some qt -> (qt == v)%Q ->
            ((q == v)%Q <-> s = t)).
  { intros t qt v Ht Hqt Hv. split.
    - intro Heq.
      destruct (Z.lt_trichotomy s t) as [Hlt|[Heq'|Hgt]]; [|exact Heq'|].
      + destruct (normalize_strictly_increasing s t Hs Ht Hlt)
          as (a & b & Ha & Hb & Hab).
        rewrite Hq in Ha. rewrite Hqt in Hb.
        inversion Ha; inversion Hb; subst a b. lra.
      + destruct (normalize_strictly_increasing t s Ht Hs Hgt)
          as (a & b & Ha & Hb & Hab).
        rewrite Hq in Hb. rewrite Hqt in Ha.
        inversion Ha; inversion Hb; subst a b. lra.
    - intros ->. rewrite Hq in Hqt. inversion Hqt; subst qt. exact Hv. }
  split.
  - apply (Hcmp 32767 (8388608 # 8388608)%Q);
      [unfold is_int16; lia|reflexivity|reflexivity].
  - apply (Hcmp (-32767) (-8388608 # 8388608)%Q);
      [unfold is_int16; lia|reflexivity|reflexivity].
Qed.

Lemma normalize_full_scale_witness :
  ((8388608 # 8388608 == inject_Z 1)%Q <-> 32767 = 32767) /\
  ((8388608 # 8388608 == inject_Z (-1))%Q <-> 32767 = -32767).
Proof.
  apply (normalize_full_scale 32767 (8388608 # 8388608)).
  - unfold is_int16. lia.
  - reflexivity.
Defined.

Lemma binary_round_aux_negb (prec emax : Z) (s : bool) (m e : Z)
    (l : location) :
  binary_round_aux prec emax (negb s) m e l
  = SFopp (binary_round_aux prec emax s m e l).
Proof.
  unfold binary_round_aux.
  destruct (shr_fexp prec emax m e l) as [mrs' e'].
  destruct (shr_fexp prec emax
              (round_nearest_even (shr_m mrs') (loc_of_shr_record mrs'))
              e' loc_Exact) as [mrs'' e''].
  destruct (shr_m mrs'') as [|m'|m']; try reflexivity.
  now destruct (e'' <=? emax - prec).
Qed.

Lemma SFopp_involutive (x : spec_float) : SFopp (SFopp x) = x.
Proof. destruct x as [s|s| |s m e]; simpl; now rewrite ?negb_involutive. Qed.

Lemma f32_of_Z_opp (s : Z) :
  s <> 0 -> f32_of_Z (- s) = SFopp (f32_of_Z s).
Proof.
  intro Hs. unfold f32_of_Z, binary_normalize, binary_round.
  destruct s as [|p|p]; [now elim Hs| |]; cbn [Z.opp];
    destruct (shl_align p 0 (fexp 24 128 (Z.pos (digits2_pos p) + 0)))
      as [mz ez].
  - apply (binary_round_aux_negb 24 128 false).
  - rewrite (binary_round_aux_negb 24 128 false).
    now rewrite SFopp_involutive.
Qed.

Lemma f32_div_opp_l (x : float32) (sy : bool) (my : positive) (ey : Z) :
  f32_div (SFopp x) (S754_finite sy my ey)
  = SFopp (f32_div x (S754_finite sy my ey)).
Proof.
  unfold f32_div.
  destruct x as [sx|sx| |sx mx ex]; cbn [SFopp SFdiv].
  - now destruct sx, sy.
  - now destruct sx, sy.
  - reflexivity.
  - destruct (SFdiv_core_binary 24 128 (Z.pos mx) ex (Z.pos my) ey)
      as [[mz ez] lz].
    replace (xorb (negb sx) sy) with (negb (xorb sx sy))
      by now destruct sx, sy.
    apply binary_round_aux_negb.
Qed.

(** X8: negating a sample negates its normalized value, bit for bit: for
    every integer [s] other than 0, [normalize (- s)] is [normalize s]
    with the sign bit flipped. *)
Theorem normalize_opp (s : Z) :
  s <> 0 -> normalize (- s) = SFopp (normalize s).
Proof.
  intro Hs. unfold normalize. rewrite (f32_of_Z_opp s Hs).
  change (f32_of_Z int16_max) with (S754_finite false 16776704 (-9)).
  apply f32_div_opp_l.
Qed.

Lemma normalize_opp_witness : normalize (- 12345) = SFopp (normalize 12345).
Proof. apply (normalize_opp 12345). discriminate. Defined.

(** ** The pattern [e(.*?)a] *)

Lemma lazy_until_a_sound (r : string) :
  forall g,
    Py.lazy_until_a r = Some g ->
    (exists post, r = (g ++ String "a" post)%string) /\
    ~ has_char "a" g /\ ~ has_char Py.newline g.
Proof.
  induction r as [|c r IH]; intros g H; [discriminate|].
  cbn [Py.lazy_until_a] in H.
  destruct (Ascii.eqb c "a") eqn:Ea.
  - apply Ascii.eqb_eq in Ea. subst c. inversion H; subst g.
    split; [now exists r|]. split; intros [].
  - destruct (Ascii.eqb c Py.newline) eqn:En; [discriminate|].
    destruct (Py.lazy_until_a r) as [g'|]; [|discriminate].
    inversion H; subst g; clear H.
    destruct (IH g' eq_refl) as ([post ->] & Hna & Hnn).
    apply Ascii.eqb_neq in Ea. apply Ascii.eqb_neq in En.
    split; [now exists post|].
    split; intros [Hc|Hc]; auto.
Qed.

Lemma lazy_until_a_complete (azi post : string) :
  ~ has_char Py.newline azi ->
  exists g, Py.lazy_until_a (azi ++ String "a" post) = Some g.
Proof.
  induction azi as [|c azi IH]; intro Hnn.
  - now exists EmptyString.
  - cbn [String.append Py.lazy_until_a].
    destruct (Ascii.eqb c "a"); [now eexists|].
    destruct (Ascii.eqb c Py.newline) eqn:En.
    + apply Ascii.eqb_eq in En. elim Hnn. now left.
    + destruct IH as [g Hg].
      * intro Hc. apply Hnn. now right.
      * rewrite Hg. now eexists.
Qed.

Lemma findall_first_sound (name : string) :
  forall azi others,
    Py.findall_from 0 name = azi :: others ->
    exists pre post,
      matches_at name pre azi post /\ ~ has_char "a" azi /\
      forall pre' azi' post',
        matches_at name pre' azi' post' ->
        (String.length pre <= String.length pre')%nat.
Proof.
  induction name as [|c name IH]; intros azi others H; [discriminate|].
  cbn [Py.findall_from] in H.
  assert (Hskip : Py.findall_from 0 name = azi :: others ->
                  (forall azi' post',
                     ~ matches_at (String c name) EmptyString azi' post') ->
                  exists pre post,
                    matches_at (String c name) pre azi post /\
                    ~ has_char "a" azi /\
                    forall pre' azi' post',
                      matches_at (String c name) pre' azi' post' ->
                      (String.length pre <= String.length pre')%nat).
  { intros Hrest Hnot.
    destruct (IH azi others Hrest) as (pre & post & [Hm Hnn] & Hna & Hleft).
    exists (String c pre), post. split; [|split; [exact Hna|]].
    - split; [|exact Hnn]. simpl. now rewrite <- Hm.
    - intros [|c' pre'] azi' post' [Hm' Hnn'].
      + elim (Hnot azi' post'). now split.
      + simpl in Hm'. inversion Hm'; subst c'.
        simpl. apply le_n_S. apply (Hleft pre' azi' post'). now split. }
  destruct (Ascii.eqb c "e") eqn:Ee.
  - apply Ascii.eqb_eq in Ee. subst c.
    destruct (Py.lazy_until_a name) as [g|] eqn:Hg.
    + inversion H; subst g; clear H.
      destruct (lazy_until_a_sound name azi Hg) as ([post ->] & Hna & Hnn).
      exists EmptyString, post. split; [now split|]. split; [exact Hna|].
      intros pre' azi' post' _. simpl. lia.
    + apply Hskip; [exact H|].
      intros azi' post' [Hm' Hnn']. simpl in Hm'. inversion Hm' as [Hname].
      destruct (lazy_until_a_complete azi' post' Hnn') as [g Hg'].
      rewrite <- Hname, Hg in Hg'. discriminate.
  - apply Hskip; [exact H|].
    intros azi' post' [Hm' _]. simpl in Hm'. inversion Hm'; subst c.
    discriminate.
Qed.

Lemma findall_nonempty (pre : string) :
  forall azi post,
    ~ has_char Py.newline azi ->
    Py.findall_from 0 (pre ++ String "e" (azi ++ String "a" post)) <> [].
Proof.
  induction pre as [|c pre IH]; intros azi post Hnn.
  - cbn [String.append Py.findall_from]. rewrite Ascii.eqb_refl.
    destruct (lazy_until_a_complete azi post Hnn) as [g ->]. discriminate.
  - cbn [String.append Py.findall_from].
    destruct (Ascii.eqb c "e"); [|now apply IH].
    destruct (Py.lazy_until_a _); [discriminate|now apply IH].
Qed.

(** X9: the azimuth text is the group of the leftmost match of the pattern
    in the name, and the shortest one there: the name is some [pre],
    'e', the text, 'a', some [post]; the text holds neither an 'a' nor a
    newline; and no match of the pattern starts before [pre] ends. *)
Theorem find_azi_leftmost_shortest (filename azi : string) :
  find_azi filename = Ok azi ->
  exists pre post,
    matches_at filename pre azi post /\
    ~ has_char "a" azi /\
    forall pre' azi' post',
      matches_at filename pre' azi' post' ->
      (String.length pre <= String.length pre')%nat.
Proof.
  unfold find_azi, Py.findall, Py.index0.
  destruct (Py.findall_from 0 filename) as [|g others] eqn:H; [discriminate|].
  intro Hg. inversion Hg; subst g. now apply (findall_first_sound _ _ others).
Qed.

Lemma find_azi_leftmost_shortest_witness :
  exists pre post,
    matches_at "Le40a90e180a.bin" pre "40" post /\
    ~ has_char "a" "40" /\
    forall pre' azi' post',
      matches_at "Le40a90e180a.bin" pre' azi' post' ->
      (String.length pre <= String.length pre')%nat.
Proof. apply find_azi_leftmost_shortest. reflexivity. Defined.

(** X10: the name parse raises, with [IndexError] and nothing else, exactly
    when the name holds no 'e' followed, without a newline between, by
    an 'a'. *)
Theorem find_azi_raises_iff_no_match (filename : string) :
  (find_azi filename = Raise IndexError <->
   ~ exists pre azi post, matches_at filename pre azi post) /\
  (forall e, find_azi filename = Raise e -> e = IndexError).
Proof.
  unfold find_azi, Py.findall, Py.index0.
  destruct (Py.findall_from 0 filename) as [|g others] eqn:H.
  - split; [|intros e He; now inversion He].
    split; [|reflexivity].
    intros _ (pre & azi & post & -> & Hnn).
    now apply (findall_nonempty pre azi post Hnn).
  - split; [|discriminate].
    split; [discriminate|].
    intro Hno. elim Hno.
    destruct (findall_first_sound _ _ _ H) as (pre & post & Hm & _).
    now exists pre, g, post.
Qed.

(** ** Which trees the traversal completes on *)









(** ** What a run leaves behind *)

(** X12: whatever its outcome, a run changes no entry of the working
    directory other than the output file: the measurement files and
    everything else are as they were. *)
Theorem run_changes_only_the_output
    (bo : byteorder) (fs : list (string * node)) (name : string) :
  name <> output_name ->
  lookup name (cwd (snd (main bo (start fs)))) = lookup name fs.
Proof.
  intro Hne. unfold main, bind.
  pose proof (scan_leaves_files (start fs)) as [Hcwd _].
  destruct (scan (start fs)) as [[[]|e] w1]; cbn [snd] in *.
  - unfold get_data_arrays.
    pose proof (save_data_to_file_save_step bo (data_arrays w1) w1)
      as (_ & _ & Hkeep).
    rewrite (Hkeep name Hne), Hcwd. reflexivity.
  - now rewrite Hcwd.
Qed.

Lemma run_changes_only_the_output_witness :
  lookup "elev40" (cwd (snd (main little (start fs_example))))
  = lookup "elev40" fs_example.
Proof. apply run_changes_only_the_output. discriminate. Defined.

Lemma pack_f_raises_overflow (bo : byteorder) (x : Z) (e : exn) :
  pack_f bo x = Raise e -> e = OverflowError.
Proof.
  unfold pack_f. cbv zeta.
  destruct (is_infinity (binary_normalize 53 1024 x 0 false));
    [intro H; now inversion H|].
  destruct (is_infinity (f32_of_f64 (binary_normalize 53 1024 x 0 false)));
    [intro H; now inversion H|discriminate].
Qed.

Lemma packable_prefix_all (bo : byteorder) (records : list entry) :
  packable_prefix bo records = records ->
  Forall (fun r => exists chunk, record_bytes bo r chunk) records.
Proof.
  induction records as [|r rest IH]; [constructor|].
  cbn [packable_prefix].
  destruct (pack_f bo (azimuth r)) as [ab|e] eqn:Ha; [|discriminate].
  destruct (pack_f bo (elevation r)) as [eb|e] eqn:He; [|discriminate].
  intro H. inversion H as [Hrest]. rewrite Hrest.
  constructor; [|now apply IH].
  exists (eb ++ ab ++ tobytes bo (data r)), eb, ab.
  repeat split; eauto using pack_f_length.
Qed.

(** The write loop from a world whose output file holds [content]: it
    appends the chunks of the records up to the first that cannot be
    packed, and returns iff there is none such. *)
Lemma write_loop_run (bo : byteorder) (records : list entry) :
  forall w content,
    lookup output_name (cwd w) = Some (File content) ->
    let run :=
      for_each records (fun r =>
        azimuth_bytes <- lift (pack_f bo (azimuth r)) ;;
        elevation_bytes <- lift (pack_f bo (elevation r)) ;;
        let data_bytes := tobytes bo (data r) in
        write output_name elevation_bytes ;;
        write output_name azimuth_bytes ;;
        write output_name data_bytes) w in
    exists chunks,
      Forall2 (record_bytes bo) (packable_prefix bo records) chunks /\
      lookup output_name (cwd (snd run))
        = Some (File (content ++ List.concat chunks)) /\
      (packable_prefix bo records = records /\ fst run = Ok tt \/
       packable_prefix bo records <> records /\ fst run = Raise OverflowError).
Proof.
  induction records as [|r rest IH]; intros w content Hfile; cbv zeta.
  - exists []. split; [constructor|]. simpl. rewrite app_nil_r. auto.
  - match goal with
    | |- context [for_each (r :: rest) ?b] => set (body := b) in *
    end.
    change (for_each (r :: rest) body w)
      with (bind (body r) (fun _ => for_each rest body) w).
    cbn [packable_prefix].
    destruct (pack_f bo (azimuth r)) as [ab|e] eqn:Ha.
    + destruct (pack_f bo (elevation r)) as [eb|e] eqn:He.
      * destruct (write_run output_name eb content w Hfile)
          as (v1 & Hw1 & Hf1).
        destruct (write_run output_name ab _ v1 Hf1) as (v2 & Hw2 & Hf2).
        destruct (write_run output_name (tobytes bo (data r)) _ v2 Hf2)
          as (v3 & Hw3 & Hf3).
        assert (Hbody : body r w = (Ok tt, v3)).
        { subst body. cbv beta. unfold bind, lift.
          rewrite Ha, He. cbv zeta. now rewrite Hw1, Hw2, Hw3. }
        unfold bind. rewrite Hbody.
        destruct (IH v3 _ Hf3) as (chunks & Hall & Hout & Hres).
        cbv zeta in Hout, Hres.
        exists ((eb ++ ab ++ tobytes bo (data r)) :: chunks).
        split; [|split].
        -- constructor; [|exact Hall].
           exists eb, ab. repeat split; eauto using pack_f_length.
        -- rewrite Hout. simpl. now rewrite <- !app_assoc.
        -- destruct Hres as [[Heq Hok]|[Hne Hraise]].
           ++ left. split; [now rewrite Heq|exact Hok].
           ++ right. split; [|exact Hraise].
              intro Heq. apply Hne. now inversion Heq.
      * pose proof (pack_f_raises_overflow bo _ e He) as Hov. subst e.
        assert (Hbody : body r w = (Raise OverflowError, w)).
        { subst body. cbv beta. unfold bind, lift. now rewrite Ha, He. }
        unfold bind. rewrite Hbody.
        exists []. split; [constructor|]. simpl. rewrite app_nil_r.
        split; [exact Hfile|]. right. split; [discriminate|reflexivity].
    + pose proof (pack_f_raises_overflow bo _ e Ha) as Hov. subst e.
      assert (Hbody : body r w = (Raise OverflowError, w)).
      { subst body. cbv beta. unfold bind, lift. now rewrite Ha. }
      unfold bind. rewrite Hbody.
      exists []. split; [constructor|]. simpl. rewrite app_nil_r.
      split; [exact Hfile|]. right. split; [discriminate|reflexivity].
Qed.

Lemma save_run (bo : byteorder) (records : list entry) (w : world) :
  (forall entries, lookup output_name (cwd w) <> Some (Dir entries)) ->
  exists chunks,
    Forall2 (record_bytes bo) (packable_prefix bo records) chunks /\
    lookup output_name (cwd (snd (save_data_to_file bo records w)))
      = Some (File (List.concat chunks)) /\
    (packable_prefix bo records = records /\
     fst (save_data_to_file bo records w) = Ok tt \/
     packable_prefix bo records <> records /\
     fst (save_data_to_file bo records w) = Raise OverflowError).
Proof.
  intro Hnodir.
  assert (Hopen : exists w0,
             open_wb output_name w = (Ok tt, w0) /\
             lookup output_name (cwd w0) = Some (File [])).
  { unfold open_wb.
    destruct (lookup output_name (cwd w)) as [[c|es]|] eqn:Hl;
      try (eexists; split; [reflexivity|]; simpl; apply lookup_set_entry_eq).
    now elim (Hnodir es). }
  destruct Hopen as (w0 & Hopen & Hfile).
  unfold save_data_to_file.
  match goal with
  | |- context [bind (open_wb output_name) ?k w] =>
      assert (Hsave : bind (open_wb output_name) k w = k tt w0)
        by (unfold bind at 1; now rewrite Hopen)
  end.
  rewrite Hsave. cbv beta.
  destruct (write_loop_run bo records w0 [] Hfile) as (chunks & H).
  exists chunks. exact H.
Qed.



(** ** What the outcome depends on *)

Lemma reads_inputs_only_ret {A} (a : A) : reads_inputs_only (ret a).
Proof. intros w1 w2 H. now split. Qed.

Lemma reads_inputs_only_lift {A} (r : result A) : reads_inputs_only (lift r).
Proof. intros w1 w2 H. now split. Qed.

Lemma reads_inputs_only_bind {A B} (c : M A) (k : A -> M B) :
  reads_inputs_only c -> (forall a, reads_inputs_only (k a)) ->
  reads_inputs_only (bind c k).
Proof.
  intros Hc Hk w1 w2 H. unfold bind.
  destruct (Hc w1 w2 H) as [Hr Hw].
  destruct (c w1) as [[a1|e1] v1], (c w2) as [[a2|e2] v2];
    cbn [fst snd] in *; try discriminate.
  - inversion Hr; subst a2. now apply Hk.
  - split; [now inversion Hr|exact Hw].
Qed.

Lemma reads_inputs_only_for_each {A} (l : list A) (body : A -> M unit) :
  (forall x, In x l -> reads_inputs_only (body x)) ->
  reads_inputs_only (for_each l body).
Proof.
  induction l as [|x l IH]; intro Hbody; simpl.
  - apply reads_inputs_only_ret.
  - apply reads_inputs_only_bind; [apply Hbody; now left|].
    intros _. apply IH. intros y Hy. apply Hbody. now right.
Qed.

Lemma same_inputs_log (ev : event) (w1 w2 : world) :
  same_inputs w1 w2 -> same_inputs (log ev w1) (log ev w2).
Proof.
  intros (Hc & Hd & Ht). repeat split; simpl; try assumption.
  now rewrite Ht.
Qed.

Lemma resolve_same_elevations (fs1 fs2 : list (string * node)) (i : Z)
    (name : string) :
  same_elevations fs1 fs2 ->
  resolve fs1 (join (folder_of i) name) = resolve fs2 (join (folder_of i) name).
Proof. intro H. unfold resolve, join. cbn [fst snd]. now rewrite (H i). Qed.

Lemma listdir_reads_inputs_only (i : Z) :
  reads_inputs_only (listdir (folder_of i)).
Proof.
  intros w1 w2 H. unfold listdir.
  destruct H as (Hc & Hd & Ht). rewrite (Hc i).
  destruct (lookup (folder_of i) (cwd w2)) as [[c|es]|]; cbn [fst snd];
    (split; [reflexivity|]).
  - now repeat split.
  - apply same_inputs_log. now repeat split.
  - now repeat split.
Qed.

Lemma isfile_reads_inputs_only (i : Z) (name : string) :
  reads_inputs_only (isfile (join (folder_of i) name)).
Proof.
  intros w1 w2 H. unfold isfile.
  rewrite (resolve_same_elevations (cwd w1) (cwd w2) i name (proj1 H)).
  destruct (resolve (cwd w2) (join (folder_of i) name)) as [[c|es]|];
    now split.
Qed.

Lemma read_file_reads_inputs_only (i : Z) (name : string) :
  reads_inputs_only (read_file (join (folder_of i) name)).
Proof.
  intros w1 w2 H. unfold read_file.
  rewrite (resolve_same_elevations (cwd w1) (cwd w2) i name (proj1 H)).
  destruct (resolve (cwd w2) (join (folder_of i) name)) as [[c|es]|];
    cbn [fst snd]; (split; [reflexivity|]); try exact H.
  now apply same_inputs_log.
Qed.

Lemma print_reads_inputs_only (line : string) :
  reads_inputs_only (print line).
Proof.
  intros w1 w2 H. split; [reflexivity|]. now apply same_inputs_log.
Qed.

Lemma append_reads_inputs_only (x : entry) : reads_inputs_only (append x).
Proof.
  intros w1 w2 (Hc & Hd & Ht). split; [reflexivity|].
  repeat split; simpl; try assumption. now rewrite Hd.
Qed.

Lemma scan_entry_reads_inputs_only (i : Z) (filename : string) :
  reads_inputs_only (scan_entry i (folder_of i) filename).
Proof.
  unfold scan_entry.
  repeat first
    [ apply reads_inputs_only_bind
    | apply reads_inputs_only_ret
    | apply reads_inputs_only_lift
    | apply isfile_reads_inputs_only
    | apply read_file_reads_inputs_only
    | apply print_reads_inputs_only
    | apply append_reads_inputs_only
    | match goal with
      | |- reads_inputs_only (if ?b then _ else _) => destruct b
      | |- forall _, reads_inputs_only _ => intro
      end ].
Qed.

Lemma scan_reads_inputs_only : reads_inputs_only scan.
Proof.
  unfold scan. apply reads_inputs_only_for_each. intros i _.
  unfold scan_folder.
  apply reads_inputs_only_bind; [apply listdir_reads_inputs_only|].
  intro filenames. apply reads_inputs_only_for_each. intros filename _.
  apply scan_entry_reads_inputs_only.
Qed.



Lemma record_bytes_functional (bo : byteorder) (r : entry)
    (c1 c2 : list byte) :
  record_bytes bo r c1 -> record_bytes bo r c2 -> c1 = c2.
Proof.
  intros (e1 & a1 & He1 & Ha1 & _ & _ & ->) (e2 & a2 & He2 & Ha2 & _ & _ & ->).
  congruence.
Qed.

Lemma chunks_functional (bo : byteorder) (records : list entry) :
  forall c1 c2,
    Forall2 (record_bytes bo) records c1 ->
    Forall2 (record_bytes bo) records c2 -> c1 = c2.
Proof.
  induction records as [|r rest IH]; intros c1 c2 H1 H2;
    inversion H1; inversion H2; subst; [reflexivity|].
  f_equal; [eapply record_bytes_functional; eassumption|now apply IH].
Qed.

Lemma packable_prefix_of_chunks (bo : byteorder) (records : list entry)
    (chunks : list (list byte)) :
  Forall2 (record_bytes bo) records chunks ->
  packable_prefix bo records = records.
Proof.
  induction 1 as [|r c records chunks (eb & ab & He & Ha & _) _ IH];
    [reflexivity|].
  cbn [packable_prefix]. now rewrite Ha, He, IH.
Qed.

Lemma folder_is_not_output (i : Z) : folder_of i <> output_name.
Proof. unfold folder_of. simpl. discriminate. Qed.

Lemma main_keeps_elevations (bo : byteorder) (fs : list (string * node)) :
  same_elevations fs (cwd (snd (main bo (start fs)))).
Proof.
  intro i. symmetry. unfold main, bind.
  pose proof (scan_leaves_files (start fs)) as [Hcwd _].
  destruct (scan (start fs)) as [[[]|e] w1]; cbn [snd] in *.
  - unfold get_data_arrays.
    pose proof (save_data_to_file_save_step bo (data_arrays w1) w1)
      as (_ & _ & Hkeep).
    rewrite (Hkeep _ (folder_is_not_output i)), Hcwd. reflexivity.
  - now rewrite Hcwd.
Qed.

Lemma main_same_elevations (bo : byteorder) (fs1 fs2 : list (string * node))
    (w1 : world) :
  same_elevations fs1 fs2 ->
  (forall entries, lookup output_name fs2 <> Some (Dir entries)) ->
  main bo (start fs1) = (Ok tt, w1) ->
  exists w2,
    main bo (start fs2) = (Ok tt, w2) /\
    lookup output_name (cwd w2) = lookup output_name (cwd w1) /\
    data_arrays w2 = data_arrays w1.
Proof.
  intros Hsame Hnodir Hmain.
  apply main_ok in Hmain.
  destruct Hmain as (v1 & chunks & Hscan1 & Hd1 & Hall & Hout1).
  destruct (scan_reads_inputs_only (start fs1) (start fs2))
    as (Hr & _ & Hd & _); [now repeat split|].
  rewrite Hscan1 in Hr, Hd. cbn [fst snd] in Hr, Hd.
  pose proof (scan_leaves_files (start fs2)) as [Hcwd _].
  destruct (scan (start fs2)) as [r2 v2] eqn:Hscan2.
  cbn [fst snd start cwd] in *. subst r2.
  destruct (save_run bo (data_arrays v2) v2)
    as (chunks2 & Hall2 & Hout2 & Hres).
  { now rewrite Hcwd. }
  rewrite <- Hd in Hall2, Hres.
  rewrite (packable_prefix_of_chunks bo _ _ Hall) in Hall2, Hres.
  rewrite (chunks_functional bo _ _ _ Hall2 Hall) in Hout2.
  destruct Hres as [[_ Hok]|[Hne _]]; [|now elim Hne].
  exists (snd (save_data_to_file bo (data_arrays v2) v2)).
  split; [|split].
  - unfold main, bind. rewrite Hscan2. unfold get_data_arrays.
    rewrite <- Hok at 1. rewrite Hd. now destruct (save_data_to_file _ _ _).
  - now rewrite Hout2, Hout1.
  - rewrite Hd1.
    pose proof (save_data_to_file_save_step bo (data_arrays v2) v2)
      as (Hkeep & _). now rewrite Hkeep.
Qed.


(** X16: running the converter again on what a completed run has left
    completes too and writes the same archive: the output file is
    emptied and rewritten, not appended to. *)
Theorem rerun_reproduces_archive
    (bo : byteorder) (fs : list (string * node)) (w1 : world) :
  main bo (start fs) = (Ok tt, w1) ->
  exists w2,
    main bo (start (cwd w1)) = (Ok tt, w2) /\
    lookup output_name (cwd w2) = lookup output_name (cwd w1) /\
    data_arrays w2 = data_arrays w1.
Proof.
  intro Hmain.
  apply (main_same_elevations bo fs (cwd w1) w1); [| |exact Hmain].
  - pose proof (main_keeps_elevations bo fs) as H.
    now rewrite Hmain in H.
  - intros entries Hdir. apply main_ok in Hmain.
    destruct Hmain as (_ & chunks & _ & _ & _ & Hout).
    rewrite Hout in Hdir. discriminate.
Qed.


Lemma rerun_reproduces_archive_witness :
  exists w2,
    main big (start (cwd (snd (main big (start fs_short))))) = (Ok tt, w2) /\
    lookup output_name (cwd w2)
      = lookup output_name (cwd (snd (main big (start fs_short)))) /\
    data_arrays w2 = data_arrays (snd (main big (start fs_short))).
Proof.
  apply (rerun_reproduces_archive big fs_short).
  vm_compute. reflexivity.
Defined.


(** X18: a tree without left-channel files gives an empty archive: if the run
    completes and no scan root is a regular file whose name starts with
    'L', the output file is created and holds no byte. *)
Theorem no_left_files_empty_archive
    (bo : byteorder) (fs : list (string * node)) (w' : world) :
  main bo (start fs) = (Ok tt, w') ->
  left_count fs = 0%nat ->
  data_arrays w' = [] /\
  lookup output_name (cwd w') = Some (File []).
Proof.
  intros Hmain Hnone. apply main_ok in Hmain.
  destruct Hmain as (w1 & chunks & Hscan & Hd & Hall & Hout).
  apply scan_ok in Hscan. destruct Hscan as (_ & pairs & Hp & Hd1).
  unfold left_count in Hnone. apply length_zero_iff_nil in Hnone.
  rewrite Hnone in Hp. inversion Hp; subst pairs.
  cbn [unpair flat_map] in Hd1. rewrite Hd1 in Hall, Hd.
  inversion Hall; subst chunks. now split.
Qed.

Lemma no_left_files_empty_archive_witness :
  data_arrays (snd (main little (start fs_empty))) = [] /\
  lookup output_name (cwd (snd (main little (start fs_empty))))
    = Some (File []).
Proof.
  apply (no_left_files_empty_archive little fs_empty);
    vm_compute; reflexivity.
Defined.

(** ** The order of the records *)

Lemma sorted_app (l1 l2 : list Z) :
  StronglySorted Z.le l1 -> StronglySorted Z.le l2 ->
  (forall x y, In x l1 -> In y l2 -> x <= y) ->
  StronglySorted Z.le (l1 ++ l2).
Proof.
  induction 1 as [|x l1 Hs IH Hx]; intros H2 Hle; [exact H2|].
  simpl. constructor.
  - apply IH; [exact H2|]. intros a b Ha Hb. apply Hle; [now right|exact Hb].
  - apply Forall_app. split; [exact Hx|].
    apply Forall_forall. intros y Hy. apply Hle; [now left|exact Hy].
Qed.

Lemma sorted_constant (i : Z) (names : list string) :
  StronglySorted Z.le (map fst (map (fun name => (i, name)) names)).
Proof.
  induction names as [|name names IH]; simpl; constructor; [exact IH|].
  apply Forall_forall. intros y Hy.
  apply in_map_iff in Hy. destruct Hy as ([j n] & <- & Hy).
  apply in_map_iff in Hy. destruct Hy as (n' & Heq & _).
  inversion Heq; subst. simpl. lia.
Qed.

Lemma jobs_sorted (fs : list (string * node)) (elevations : list Z) :
  StronglySorted Z.le elevations ->
  StronglySorted Z.le
    (map fst (flat_map (fun i => map (fun name => (i, name))
                                     (listing fs (folder_of i)))
                       elevations)).
Proof.
  induction 1 as [|i rest Hs IH Hi]; [constructor|].
  cbn [flat_map]. rewrite map_app. apply sorted_app.
  - apply sorted_constant.
  - exact IH.
  - intros x y Hx Hy.
    apply in_map_iff in Hx. destruct Hx as ([j n] & <- & Hx).
    apply in_map_iff in Hx. destruct Hx as (n' & Heq & _).
    inversion Heq; subst j n'. cbn [fst].
    apply in_map_iff in Hy. destruct Hy as ([k m] & <- & Hy).
    apply in_flat_map in Hy. destruct Hy as (k' & Hk' & Hy).
    apply in_map_iff in Hy. destruct Hy as (m' & Heq' & _).
    inversion Heq'; subst k' m'. cbn [fst].
    rewrite Forall_forall in Hi. now apply Hi.
Qed.

Lemma sorted_filter (p : Z * string -> bool) (js : list (Z * string)) :
  StronglySorted Z.le (map fst js) ->
  StronglySorted Z.le (map fst (filter p js)).
Proof.
  induction js as [|job js IH]; intro H; [constructor|].
  simpl in H. inversion H as [|x l Hs Hx]; subst.
  simpl. destruct (p job); [|now apply IH].
  simpl. constructor; [now apply IH|].
  apply Forall_forall. intros y Hy.
  apply in_map_iff in Hy. destruct Hy as (job' & <- & Hy).
  apply filter_In in Hy. destruct Hy as [Hy _].
  rewrite Forall_forall in Hx. apply Hx. now apply in_map.
Qed.

Lemma sorted_doubled (js : list (Z * string)) :
  StronglySorted Z.le (map fst js) ->
  StronglySorted Z.le (flat_map (fun job => [fst job; fst job]) js).
Proof.
  induction js as [|job js IH]; intro H; [constructor|].
  simpl in H. inversion H as [|x l Hs Hx]; subst.
  assert (Hall : Forall (Z.le (fst job))
                        (flat_map (fun job => [fst job; fst job]) js)).
  { apply Forall_forall. intros y Hy.
    apply in_flat_map in Hy. destruct Hy as (job' & Hjob' & Hy).
    rewrite Forall_forall in Hx.
    assert (fst job <= fst job') by (apply Hx; now apply in_map).
    destruct Hy as [<-|[<-|[]]]; assumption. }
  cbn [flat_map app]. constructor; [constructor|].
  - now apply IH.
  - exact Hall.
  - constructor; [lia|exact Hall].
Qed.

Lemma pairs_elevations (fs : list (string * node))
    (js : list (Z * string)) (pairs : list (entry * entry)) :
  Forall2 (pair_of fs) js pairs ->
  map elevation (unpair pairs) = flat_map (fun job => [fst job; fst job]) js.
Proof.
  induction 1 as [|job p js pairs Hp _ IH]; [reflexivity|].
  apply pair_of_same_position in Hp. destruct Hp as (H1 & H2 & _).
  unfold unpair in *. cbn [flat_map app map]. now rewrite H1, H2, IH.
Qed.

Lemma number_range_sorted : StronglySorted Z.le number_range.
Proof.
  vm_compute.
  repeat (constructor; [|repeat (constructor; [discriminate|]); constructor]).
  constructor.
Qed.

(** X19: the records of a completed traversal come in ascending order of
    elevation, and every elevation is one of the fourteen of
    [number_range]. *)
Theorem records_in_ascending_elevation
    (fs : list (string * node)) (w' : world) :
  scan (start fs) = (Ok tt, w') ->
  StronglySorted Z.le (map elevation (data_arrays w')) /\
  Forall (fun r => In (elevation r) number_range) (data_arrays w').
Proof.
  intro H. apply scan_ok in H. destruct H as (_ & pairs & Hp & Hd).
  rewrite Hd. split.
  - rewrite (pairs_elevations fs _ _ Hp).
    apply sorted_doubled, sorted_filter.
    apply (jobs_sorted fs number_range number_range_sorted).
  - apply Forall_unpair. apply (Forall2_right _ _ _ _ Hp).
    intros job p Hin Hpair. apply jobs_elevation in Hin.
    apply pair_of_same_position in Hpair. destruct Hpair as (H1 & H2 & _).
    now rewrite H1, H2.
Qed.

Lemma records_in_ascending_elevation_witness :
  StronglySorted Z.le
    (map elevation (data_arrays (snd (scan (start fs_short))))) /\
  Forall (fun r => In (elevation r) number_range)
         (data_arrays (snd (scan (start fs_short)))).
Proof.
  apply (records_in_ascending_elevation fs_short).
  vm_compute. reflexivity.
Defined.
